(** * mcp-agents-md: the memory log store and the per-client rate limiter

    A shallow embedding of [src/mcp_agent_memory/app.py]:
    [check_rate_limit], [init_memory_file], [read_memory_file],
    [append_to_memory_file] and [get_file_stats], together with the part of
    the Python runtime these functions lean on (text strings, the text
    layer of [open], [str.strip], [datetime.isoformat]).

    Conventions.
    - A Python [str] is the list of its code points; a file holds bytes.
      [open] is called without an encoding: the text layer is taken to be
      UTF-8, the encoding that the specification gives for the file.
    - The module constants read from the environment are the fields of
      [config]; [default_config] holds the defaults of the source.
    - A reading of [time.time()] is the rational number it denotes.
    - The clock, the exceptions raised by the operating system and the text
      of an exception ([str(e)]) are inputs of the call (its [*_env]).
    - Every function is sequential: one call runs from start to end.
    - The [logger] and [audit_logger] calls write to other files and are
      left out. *)

From Stdlib Require Import ZArith NArith QArith Lqa Lia List String Ascii.
From Stdlib Require Import DecimalString.
From stdpp Require Import base option list gmap.

Import ListNotations.

(** ** Python strings *)

Module PyStr.

Definition codepoint := N.
Definition str := list codepoint.

(** A literal of the source, character by character (all of them ASCII). *)
Definition lit (s : string) : str := map N_of_ascii (list_ascii_of_string s).

Definition LF : codepoint := 10%N.
Definition CR : codepoint := 13%N.

(** [len(s)]: the number of code points. *)
Definition len {A} (s : list A) : Z := Z.of_nat (length s).

(** [str.isspace] on one character, the set that [str.strip()] removes. *)
Definition isspace (c : codepoint) : bool :=
  ((9 <=? c) && (c <=? 13) || (28 <=? c) && (c <=? 32)
   || (c =? 133) || (c =? 160) || (c =? 5760)
   || (8192 <=? c) && (c <=? 8202)
   || (c =? 8232) || (c =? 8233) || (c =? 8239) || (c =? 8287)
   || (c =? 12288))%N.

Fixpoint lstrip (s : str) : str :=
  match s with
  | [] => []
  | c :: r => if isspace c then lstrip r else s
  end.

Definition rstrip (s : str) : str := rev (lstrip (rev s)).

(** [s.strip()] *)
Definition strip (s : str) : str := rstrip (lstrip s).

(** [str(n)] for an [int], as an f-string renders it. *)
Definition str_of_int (z : Z) : str := lit (NilZero.string_of_int (Z.to_int z)).

(** [n] in decimal, zero-filled to [width] digits (the [%0wd] of the
    runtime, for a value that fits). *)
Fixpoint zfill_dec (width : nat) (n : N) : str :=
  match width with
  | O => []
  | S w => zfill_dec w (n / 10)%N ++ [(48 + n mod 10)%N]
  end.

End PyStr.

Export PyStr.

(** ** [datetime] *)

Record datetime := {
  year : N; month : N; day : N;
  hour : N; minute : N; second : N; microsecond : N
}.

(** [d.isoformat()] of a naive [datetime]: [YYYY-MM-DDTHH:MM:SS], followed by
    [.ffffff] when the microsecond is not 0. *)
Definition isoformat (d : datetime) : str :=
  zfill_dec 4 (year d) ++ lit "-" ++ zfill_dec 2 (month d) ++ lit "-"
  ++ zfill_dec 2 (day d) ++ lit "T" ++ zfill_dec 2 (hour d) ++ lit ":"
  ++ zfill_dec 2 (minute d) ++ lit ":" ++ zfill_dec 2 (second d)
  ++ (if (microsecond d =? 0)%N then [] else lit "." ++ zfill_dec 6 (microsecond d)).

(** ** The text layer of [open]: UTF-8 *)

Module Utf8.

Definition byte := N.
Definition bytes := list byte.

Definition is_surrogate (c : codepoint) : bool :=
  ((55296 <=? c) && (c <? 57344))%N.

(** The bytes of one character; [None] is the [UnicodeEncodeError] of a lone
    surrogate (and of a number that is no code point). *)
Definition encode_cp (c : codepoint) : option bytes :=
  if (c <? 128)%N then Some [c]
  else if (c <? 2048)%N then Some [192 + c / 64; 128 + c mod 64]%N
  else if (c <? 65536)%N then
    if is_surrogate c then None
    else Some [224 + c / 4096; 128 + (c / 64) mod 64; 128 + c mod 64]%N
  else if (c <? 1114112)%N then
    Some [240 + c / 262144; 128 + (c / 4096) mod 64;
          128 + (c / 64) mod 64; 128 + c mod 64]%N
  else None.

Fixpoint encode (s : str) : option bytes :=
  match s with
  | [] => Some []
  | c :: r =>
    match encode_cp c, encode r with
    | Some b, Some bs => Some (b ++ bs)
    | _, _ => None
    end
  end.

Definition is_ascii (c : codepoint) : Prop := (c < 128)%N.

Definition is_cont (b : byte) : bool := ((128 <=? b) && (b <? 192))%N.

(** Strict decoding; [None] is the [UnicodeDecodeError] (stray or missing
    continuation byte, overlong form, surrogate, value above U+10FFFF). *)
Fixpoint decode (bs : bytes) : option str :=
  match bs with
  | [] => Some []
  | b0 :: t0 =>
    if (b0 <? 128)%N then cons b0 <$> decode t0
    else if (b0 <? 192)%N then None
    else if (b0 <? 224)%N then
      match t0 with
      | b1 :: t1 =>
        let c := ((b0 - 192) * 64 + (b1 - 128))%N in
        if is_cont b1 && (128 <=? c)%N then cons c <$> decode t1 else None
      | _ => None
      end
    else if (b0 <? 240)%N then
      match t0 with
      | b1 :: b2 :: t2 =>
        let c := (((b0 - 224) * 64 + (b1 - 128)) * 64 + (b2 - 128))%N in
        if is_cont b1 && is_cont b2 && (2048 <=? c)%N && negb (is_surrogate c)
        then cons c <$> decode t2 else None
      | _ => None
      end
    else if (b0 <? 248)%N then
      match t0 with
      | b1 :: b2 :: b3 :: t3 =>
        let c := ((((b0 - 240) * 64 + (b1 - 128)) * 64 + (b2 - 128)) * 64
                  + (b3 - 128))%N in
        if is_cont b1 && is_cont b2 && is_cont b3
           && (65536 <=? c)%N && (c <? 1114112)%N
        then cons c <$> decode t3 else None
      | _ => None
      end
    else None
  end.

(** Reading in text mode with the default [newline=None]: every [\r\n] and
    every other [\r] comes back as [\n]. (Writing leaves [\n] as it is:
    [fcntl] exists on POSIX systems only, where [os.linesep] is [\n].) *)
Fixpoint universal_newlines (s : str) : str :=
  match s with
  | [] => []
  | c :: r =>
    if (c =? CR)%N then
      LF :: match r with
            | d :: r' => if (d =? LF)%N then universal_newlines r'
                         else universal_newlines r
            | [] => []
            end
    else c :: universal_newlines r
  end.

(** The number of lines that iterating over a text file yields: one per
    [\n], and one more for a last line without one. *)
Fixpoint count_lines (s : str) : nat :=
  match s with
  | [] => 0
  | c :: r =>
    if (c =? LF)%N then S (count_lines r)
    else match r with [] => 1 | _ => count_lines r end
  end.

End Utf8.

Export Utf8.

(** ** Configuration *)

Record config := {
  MAX_RULE_SIZE : Z;
  RATE_LIMIT_REQUESTS : Z;
  RATE_LIMIT_WINDOW : Z
}.

Definition default_config : config :=
  {| MAX_RULE_SIZE := 10000; RATE_LIMIT_REQUESTS := 60; RATE_LIMIT_WINDOW := 60 |}.

(** ** Rate limiting *)

Module RateLimit.

(** [x < y] on clock readings. A reading of [time.time()] is taken as the
    rational number it denotes. *)
Definition Qlt_bool (x y : Q) : bool := negb (Qle_bool y x).

(** [rate_limit_store]: a [defaultdict(list)] from client to timestamps. *)
Abbreviation store := (gmap str (list Q)).

(** [now - t < RATE_LIMIT_WINDOW]: the test that keeps a timestamp. *)
Definition in_window (cfg : config) (now t : Q) : bool :=
  Qlt_bool (now - t) (inject_Z (RATE_LIMIT_WINDOW cfg)).

(** [check_rate_limit(client_ip)] at clock reading [now]: the verdict and
    the store it leaves. *)
Definition check_rate_limit (cfg : config) (now : Q) (client_ip : str)
    (rate_limit_store : store) : bool * store :=
  let kept :=
    List.filter (in_window cfg now) (default [] (rate_limit_store !! client_ip)) in
  let rate_limit_store := <[client_ip := kept]> rate_limit_store in
  if (RATE_LIMIT_REQUESTS cfg <=? len kept)%Z then (false, rate_limit_store)
  else (true, <[client_ip := kept ++ [now]]> rate_limit_store).

(** Calls of one client at the clock readings [times], in order: the
    verdicts and the store at the end. *)
Fixpoint run_checks (cfg : config) (client_ip : str) (times : list Q)
    (st : store) : list bool * store :=
  match times with
  | [] => ([], st)
  | now :: rest =>
    let (ok, st1) := check_rate_limit cfg now client_ip st in
    let (oks, st2) := run_checks cfg client_ip rest st1 in
    (ok :: oks, st2)
  end.

(** What a call does to the list of its own client. *)
Definition window_step (cfg : config) (now : Q) (l : list Q) : bool * list Q :=
  let kept := List.filter (in_window cfg now) l in
  if (RATE_LIMIT_REQUESTS cfg <=? len kept)%Z then (false, kept)
  else (true, kept ++ [now]).


(** The stores a process can be in: empty at start, then changed by
    [check_rate_limit] only. *)
Inductive reachable (cfg : config) : store -> Prop :=
| reachable_start : reachable cfg ∅
| reachable_call st now client_ip :
    reachable cfg st ->
    reachable cfg (snd (check_rate_limit cfg now client_ip st)).

End RateLimit.

Export RateLimit.

(** ** File operations *)

Module MemoryFile.

(** The file at [FILE_PATH]: absent, or its bytes. *)
Definition filesystem := option bytes.

Definition HEADER : str := lit "# Agent Memory" ++ [LF; LF].

(** [init_memory_file()] on a start-up that goes through (an exception of
    [open] is not caught there and ends the process). *)
Definition init_memory_file (now : datetime) (fs : filesystem) : filesystem :=
  match fs with
  | Some data => Some data
  | None =>
    Some (default [] (encode (HEADER ++ lit "- System initialized on "
                              ++ isoformat now ++ [LF])))
  end.

(** What the surroundings give to one [read_memory_file] call: an exception
    that [open], [flock] or [read] raises on the existing file, and the text
    of the [UnicodeDecodeError] for a file that is not UTF-8. *)
Record read_env := {
  read_fault : option str;
  decode_error : str
}.

Definition NOT_FOUND : str := lit "Error: Memory file not found.".

Definition read_memory_file (env : read_env) (fs : filesystem) : str :=
  match fs with
  | None => NOT_FOUND                                (* FileNotFoundError *)
  | Some data =>
    match read_fault env with
    | Some e => lit "Error reading file: " ++ e
    | None =>
      match decode data with
      | Some content => universal_newlines content
      | None => lit "Error reading file: " ++ decode_error env
      end
    end
  end.

(** An exception raised inside the [try] of [append_to_memory_file], with
    its text: by [open], by [flock(LOCK_EX)], or once the entry is on its
    way to the file (by [flush], by the unlock or by the closing of the
    file), when [written] bytes of the entry have reached the file. *)
Inductive append_fault :=
| OpenRaises (e : str)
| FlockRaises (e : str)
| WriteRaises (written : nat) (e : str).

Record append_env := {
  now : datetime;                  (* datetime.now() *)
  fault : option append_fault;
  encode_error : str               (* text of the UnicodeEncodeError *)
}.

Definition EMPTY_RULE : str := lit "Error: Rule cannot be empty.".
Definition SIZE_EXCEEDED (cfg : config) : str :=
  lit "Error: Rule exceeds maximum size (" ++ str_of_int (MAX_RULE_SIZE cfg)
  ++ lit " bytes).".
Definition SUCCESS : str := lit "Successfully added new rule.".
Definition WRITE_ERROR (e : str) : str := lit "Error writing to file: " ++ e.

(** [f"\n- [{timestamp}] {rule.strip()}"] *)
Definition formatted_rule (timestamp rule : str) : str :=
  [LF] ++ lit "- [" ++ timestamp ++ lit "] " ++ strip rule.

Definition is_empty (s : str) : bool :=
  match s with [] => true | _ => false end.

Definition has_CR (s : str) : bool := existsb (N.eqb CR) s.

(** [append_to_memory_file(rule)]: the returned message and the file. Opening
    in mode ["a"] creates a missing file; every exception of the [try] block
    ends in the [except Exception] branch. *)
Definition append_to_memory_file (cfg : config) (env : append_env)
    (rule : str) (fs : filesystem) : str * filesystem :=
  if is_empty rule || is_empty (strip rule) then (EMPTY_RULE, fs)
  else if (len rule >? MAX_RULE_SIZE cfg)%Z then (SIZE_EXCEEDED cfg, fs)
  else
    let timestamp := isoformat (now env) in
    let formatted_rule := formatted_rule timestamp rule in
    match fault env with
    | Some (OpenRaises e) => (WRITE_ERROR e, fs)         (* open(FILE_PATH, "a") *)
    | _ =>
      let data := default [] fs in
      match fault env with
      | Some (FlockRaises e) => (WRITE_ERROR e, Some data)     (* flock(f, LOCK_EX) *)
      | _ =>
        match encode formatted_rule with                 (* f.write(formatted_rule) *)
        | None => (WRITE_ERROR (encode_error env), Some data)
        | Some bs =>
          match fault env with                           (* f.flush() and after *)
          | Some (WriteRaises written e) =>
            (WRITE_ERROR e, Some (data ++ firstn written bs))
          | _ => (SUCCESS, Some (data ++ bs))
          end
        end
      end
    end.

(** The calls of a run, one after the other: the messages returned and the
    file at the end. *)
Fixpoint run_appends (cfg : config) (calls : list (append_env * str))
    (fs : filesystem) : list str * filesystem :=
  match calls with
  | [] => ([], fs)
  | (env, rule) :: rest =>
    let (r, fs1) := append_to_memory_file cfg env rule fs in
    let (rs, fs2) := run_appends cfg rest fs1 in
    (r :: rs, fs2)
  end.

(** The entry that an accepted call writes. *)
Definition rendered (call : append_env * str) : str :=
  formatted_rule (isoformat (now (fst call))) (snd call).

(** A value of the dictionary that [get_file_stats] returns. *)
Inductive pyval :=
| PyNone
| PyBool (b : bool)
| PyInt (z : Z)
| PyStr (s : str).

(** A dictionary literal: its items in order. *)
Abbreviation dict := (list (string * pyval)).

Fixpoint dict_get (k : string) (d : dict) : option pyval :=
  match d with
  | [] => None
  | (k', v) :: r => if String.eqb k k' then Some v else dict_get k r
  end.

(** What the surroundings give to one [get_file_stats] call: the [st_mtime]
    of the file as a local time, an exception that [os.stat], [open] or the
    reading raises on the existing file, and the text of the
    [UnicodeDecodeError]. *)
Record stats_env := {
  st_mtime : datetime;
  stats_fault : option str;
  stats_decode_error : str
}.

Definition get_file_stats (env : stats_env) (fs : filesystem) : dict :=
  match fs with
  | None =>                                          (* FileNotFoundError *)
    [("exists", PyBool false); ("size_bytes", PyInt 0);
     ("line_count", PyInt 0); ("modified", PyNone)]%string
  | Some data =>
    match stats_fault env with
    | Some e => [("exists", PyBool false); ("error", PyStr e)]%string
    | None =>
      match decode data with
      | None =>
        [("exists", PyBool false);
         ("error", PyStr (stats_decode_error env))]%string
      | Some content =>
        [("exists", PyBool true); ("size_bytes", PyInt (len data));
         ("line_count",
          PyInt (Z.of_nat (count_lines (universal_newlines content))));
         ("modified", PyStr (isoformat (st_mtime env)))]%string
      end
    end
  end.

End MemoryFile.

Export MemoryFile.


(** ** Sample inputs *)

Module Samples.

(** The limiter of property 5 of the specification: 3 calls in 60 s. *)
Definition three_per_minute : config :=
  {| MAX_RULE_SIZE := 10000; RATE_LIMIT_REQUESTS := 3; RATE_LIMIT_WINDOW := 60 |}.

(** A limiter that admits nothing. *)
Definition closed_door : config :=
  {| MAX_RULE_SIZE := 10000; RATE_LIMIT_REQUESTS := 0; RATE_LIMIT_WINDOW := 60 |}.

Definition alice : str := lit "10.0.0.7".

Definition noon : datetime :=
  {| year := 2024; month := 5; day := 17;
     hour := 12; minute := 0; second := 0; microsecond := 250000 |}.

(** A call during which nothing raises. *)
Definition quiet (d : datetime) : append_env :=
  {| now := d; fault := None; encode_error := [] |}.

Definition quiet_read : read_env :=
  {| read_fault := None; decode_error := [] |}.


(** The file is there, but [open] is refused. *)
Definition no_permission (d : datetime) : stats_env :=
  {| st_mtime := d;
     stats_fault := Some (lit "[Errno 13] Permission denied: 'AGENTS.md'");
     stats_decode_error := [] |}.

(** The content of the file that [init_memory_file] makes at [d]. *)
Definition initial_content (d : datetime) : str :=
  HEADER ++ lit "- System initialized on " ++ isoformat d ++ [LF].

(** 9999 times [x], then [U+00E9]: 10000 characters, 10001 bytes. *)
Definition accented_rule : str := repeat 120%N (N.to_nat 9999) ++ [233%N].

(** The file that [init_memory_file] makes at [noon]. *)
Definition initial_file : filesystem := init_memory_file noon None.

(** [Append("a\rb")] *)
Definition cr_call : append_env * str := (quiet noon, [97; CR; 98]%N).

Definition two_calls : list (append_env * str) :=
  [(quiet noon, lit "  first rule "); (quiet noon, lit "second")].

(** 20000 spaces, a line feed and a tab. *)
Definition blank_rule : str := repeat 32%N (N.to_nat 20000) ++ [LF; 9%N].

(** A list of four timestamps under a limit of three. *)
Definition crowded : store := {[ alice := [900; 1000; 1000; 1000]%Q ]}.

(** The store after three admitted calls of [alice] at 1000. *)
Definition full_window : store :=
  snd (run_checks three_per_minute alice [1000; 1000; 1000]%Q ∅).

End Samples.

Export Samples.

(** ** Callers: authentication, routes *)

Module Service.

(** Calls of any clients, in order: the verdicts and the store at the end. *)
Fixpoint run_calls (cfg : config) (calls : list (str * Q)) (st : store)
    : list bool * store :=
  match calls with
  | [] => ([], st)
  | (client_ip, now) :: rest =>
    let (ok, st1) := check_rate_limit cfg now client_ip st in
    let (oks, st2) := run_calls cfg rest st1 in
    (ok :: oks, st2)
  end.

(** The clock readings of the calls of [client] that were admitted. *)
Fixpoint admitted_times (cfg : config) (client : str) (calls : list (str * Q))
    (st : store) : list Q :=
  match calls with
  | [] => []
  | (client_ip, now) :: rest =>
    let (ok, st1) := check_rate_limit cfg now client_ip st in
    (if ok && bool_decide (client_ip = client) then [now] else [])
    ++ admitted_times cfg client rest st1
  end.

(** The calls of [client] among [calls]. *)
Definition own_calls (client : str) (calls : list (str * Q)) : list (str * Q) :=
  List.filter (fun c => bool_decide (fst c = client)) calls.

(** [request.client.host if request.client else "unknown"] *)
Definition client_host (client : option str) : str :=
  default (lit "unknown") client.

(** [raise HTTPException(status_code, detail)] *)
Inductive http_exception := HTTPException (status_code : Z) (detail : str).

(** [verify_api_key(request, key)]: the exception raised or the dictionary
    returned, and the store. [key] is the [X-API-Key] header, [None] when
    the request has none. *)
Definition verify_api_key (cfg : config) (API_KEY : str) (now : Q)
    (client key : option str) (st : store)
    : (http_exception + dict) * store :=
  let client_ip := client_host client in
  if bool_decide (key <> Some API_KEY) then
    (inl (HTTPException 403 (lit "Invalid or missing API Key")), st)
  else
    let (ok, st) := check_rate_limit cfg now client_ip st in
    if negb ok then (inl (HTTPException 429 (lit "Rate limit exceeded")), st)
    else (inr [("key", PyStr (default [] key));
               ("client_ip", PyStr client_ip)]%string, st).

(** What [APIKeyAuthMiddleware.dispatch] answers: a [JSONResponse] of its
    own, or what [call_next(request)] gives. *)
Inductive dispatch_result :=
| JSONResponse (status_code : Z) (content : dict)
| CallNext.

Definition dispatch (cfg : config) (API_KEY : str) (now : Q)
    (client api_key : option str) (st : store) : dispatch_result * store :=
  let client_ip := client_host client in
  if bool_decide (api_key <> Some API_KEY) then
    (JSONResponse 403 [("error", PyStr (lit "Invalid or missing API Key"))]%string, st)
  else
    let (ok, st) := check_rate_limit cfg now client_ip st in
    if negb ok then
      (JSONResponse 429 [("error", PyStr (lit "Rate limit exceeded"))]%string, st)
    else (CallNext, st).

(** The body of [POST /api/memory]: [{"result": ..., "stats": ...}]. *)
Record write_response := {
  write_result : str;
  write_stats : dict
}.

(** The body of [GET /api/memory]: [{"content": ..., "stats": ...}]. *)
Record read_response := {
  read_content : str;
  read_stats : dict
}.

(** [api_write_memory(request, rule)] *)
Definition api_write_memory (cfg : config) (env : append_env) (senv : stats_env)
    (rule : str) (fs : filesystem) : write_response * filesystem :=
  let (result, fs) := append_to_memory_file cfg env rule fs in
  ({| write_result := result; write_stats := get_file_stats senv fs |}, fs).

(** [api_read_memory()] *)
Definition api_read_memory (renv : read_env) (senv : stats_env)
    (fs : filesystem) : read_response :=
  let content := read_memory_file renv fs in
  {| read_content := content; read_stats := get_file_stats senv fs |}.

(** A request to a route declared with
    [dependencies=[Depends(verify_api_key)]]: the handler runs only when the
    dependency has returned. *)
Definition POST_api_memory (cfg : config) (API_KEY : str) (now : Q)
    (client key : option str) (env : append_env) (senv : stats_env)
    (rule : str) (st : store) (fs : filesystem)
    : (http_exception + write_response) * store * filesystem :=
  match verify_api_key cfg API_KEY now client key st with
  | (inl e, st) => (inl e, st, fs)
  | (inr _, st) =>
    let (body, fs) := api_write_memory cfg env senv rule fs in
    (inr body, st, fs)
  end.

Definition GET_api_memory (cfg : config) (API_KEY : str) (now : Q)
    (client key : option str) (renv : read_env) (senv : stats_env)
    (st : store) (fs : filesystem)
    : (http_exception + read_response) * store :=
  match verify_api_key cfg API_KEY now client key st with
  | (inl e, st) => (inl e, st)
  | (inr _, st) => (inr (api_read_memory renv senv fs), st)
  end.

Definition is_LF (c : codepoint) : bool := (c =? LF)%N.

Definition has_LF (s : str) : bool := existsb is_LF s.

(** A text without line break. *)
Definition single_line (s : str) : bool := negb (has_CR s) && negb (has_LF s).

(** A character of a one-line ASCII text: no control character. *)
Definition printable (c : codepoint) : bool := ((32 <=? c) && (c <? 127))%N.

(** The text ends inside a line: it is not empty and its last character is
    not a line feed. *)
Definition open_line (s : str) : bool :=
  match last s with
  | Some c => negb (c =? LF)%N
  | None => false
  end.

End Service.

Export Service.

(** ** [backup.py] *)

Module Backup.

Definition COMMA : codepoint := 44%N.

(** [s.split(sep)] for a separator of one character: the pieces between
    the separators, empty ones included. *)
Fixpoint split (sep : codepoint) (s : str) : list str :=
  match s with
  | [] => [[]]
  | c :: r =>
    if (c =? sep)%N then [] :: split sep r
    else match split sep r with
         | piece :: pieces => (c :: piece) :: pieces
         | [] => [[c]]
         end
  end.

(** [[r.strip() for r in EMAIL_TO.split(",") if r.strip()]], the recipients
    that [backup_to_email] and [test_email_config] hand to [sendmail]. *)
Definition recipients (EMAIL_TO : str) : list str :=
  List.filter (fun r => negb (is_empty r)) (map strip (split COMMA EMAIL_TO)).

(** [s.startswith(p)] *)
Fixpoint startswith (p s : str) : bool :=
  match p, s with
  | [], _ => true
  | _ :: _, [] => false
  | a :: p', b :: s' => (a =? b)%N && startswith p' s'
  end.

(** [p in s] for strings. *)
Fixpoint contains (p s : str) : bool :=
  startswith p s || match s with
                    | [] => false
                    | _ :: r => contains p r
                    end.

Definition MARKER : str := lit "AGENTS_backup_".

(** An object of a [list_objects_v2] page. [LastModified], an aware
    [datetime], is the number of microseconds since 0001-01-01T00:00:00 UTC. *)
Record s3_object := {
  Key : str;
  LastModified : Z;
  Size : Z
}.

(** The largest [datetime], 9999-12-31T23:59:59.999999, in microseconds. *)
Definition DATETIME_MAX : Z := 315537897599999999.
Definition MICROSECONDS_PER_DAY : Z := 86400000000.

(** [now - timedelta(days=days)]; [None] is the [OverflowError] of a
    [timedelta] beyond 999999999 days or of a result outside the range of
    [datetime]. *)
Definition minus_days (now days : Z) : option Z :=
  if (Z.abs days >? 999999999)%Z then None
  else
    let t := (now - days * MICROSECONDS_PER_DAY)%Z in
    if ((t <? 0) || (t >? DATETIME_MAX))%Z then None else Some t.

(** What S3 gives to one [cleanup_old_s3_backups] call: the clock, the pages
    of the listing ([None] when [get_s3_client] or the paginator raises), and
    for the [i]-th [delete_objects] request the length of the ["Deleted"] list
    of the response ([None] when the request raises). *)
Record s3_env := {
  s3_now : Z;
  s3_pages : option (list (list s3_object));
  s3_deleted : nat -> option nat
}.

(** The keys that the two nested loops collect. *)
Definition objects_to_delete (cutoff_date : Z) (pages : list (list s3_object))
    : list str :=
  map Key
    (List.filter
       (fun obj => contains MARKER (Key obj) && (LastModified obj <? cutoff_date)%Z)
       (concat pages)).

(** [objects[i:i+1000] for i in range(0, len(objects), 1000)] *)
Definition batches {A} (objects : list A) : list (list A) :=
  map (fun i => firstn 1000 (skipn (1000 * i) objects))
      (seq 0 ((length objects + 999) / 1000)).

(** The loop over the batches from request number [i] on: the count
    returned (0 from the [except] branch once a request raises) and the
    requests sent. *)
Fixpoint delete_batches (env : s3_env) (i : nat) (todo : list (list str))
    (deleted_count : Z) : Z * list (list str) :=
  match todo with
  | [] => (deleted_count, [])
  | batch :: rest =>
    match s3_deleted env i with
    | None => (0%Z, [batch])
    | Some n =>
      let (count, sent) :=
        delete_batches env (S i) rest (deleted_count + Z.of_nat n)%Z in
      (count, batch :: sent)
    end
  end.

(** [cleanup_old_s3_backups(days_to_keep)]: the number returned and the
    [delete_objects] requests sent, each with its keys. *)
Definition cleanup_old_s3_backups (S3_ENABLED S3_AVAILABLE : bool)
    (S3_BUCKET : str) (env : s3_env) (days_to_keep : Z)
    : Z * list (list str) :=
  if negb S3_ENABLED || negb S3_AVAILABLE || is_empty S3_BUCKET then (0%Z, [])
  else
    match s3_pages env, minus_days (s3_now env) days_to_keep with
    | Some pages, Some cutoff_date =>
      let objects := objects_to_delete cutoff_date pages in
      match objects with
      | [] => (0%Z, [])
      | _ :: _ => delete_batches env 0 (batches objects) 0
      end
    | _, _ => (0%Z, [])
    end.

(** An entry of the list that [list_backups()] returns. [file_size] is the
    integer that the ["size"] text of the entry denotes, [None] when the
    entry has no ["size"]. *)
Record drive_file := {
  file_id : str;
  file_name : str;
  file_size : option Z;
  createdTime : str
}.

(** An entry of the list that [list_s3_backups()] returns. *)
Record s3_backup := {
  backup_key : str;
  backup_size : Z;
  last_modified : str
}.

(** A value of a statistics dictionary; [StatRound2 n d] is the [float]
    [round(n / d, 2)]. *)
Inductive stat_value :=
| StatNone
| StatInt (z : Z)
| StatStr (s : str)
| StatRound2 (n d : Z).

Abbreviation stats_dict := (list (string * stat_value)).

(** [d[k]]; [None] is the [KeyError]. *)
Fixpoint subscript (d : stats_dict) (k : string) : option stat_value :=
  match d with
  | [] => None
  | (k', v) :: r => if String.eqb k k' then Some v else subscript r k
  end.

Definition sum_Z (l : list Z) : Z := fold_right Z.add 0%Z l.

(** [get_backup_stats()], from the list that its [list_backups()] returned
    (newest first). *)
Definition get_backup_stats (BACKUP_RETENTION_DAYS : Z)
    (backups : list drive_file) : stats_dict :=
  match backups, last backups with
  | newest :: _, Some oldest =>
    let total_size := sum_Z (map (fun b => default 0%Z (file_size b)) backups) in
    [("count", StatInt (len backups));
     ("total_size_bytes", StatInt total_size);
     ("total_size_mb", StatRound2 total_size (1024 * 1024));
     ("oldest", StatStr (createdTime oldest));
     ("newest", StatStr (createdTime newest));
     ("retention_days", StatInt BACKUP_RETENTION_DAYS)]%string
  | _, _ =>
    [("count", StatInt 0); ("total_size_bytes", StatInt 0);
     ("oldest", StatNone); ("newest", StatNone)]%string
  end.

(** [get_s3_backup_stats()], from the list that its [list_s3_backups()]
    returned (newest first). *)
Definition get_s3_backup_stats (S3_BUCKET S3_PREFIX : str)
    (backups : list s3_backup) : stats_dict :=
  match backups, last backups with
  | newest :: _, Some oldest =>
    let total_size := sum_Z (map backup_size backups) in
    [("count", StatInt (len backups));
     ("total_size_bytes", StatInt total_size);
     ("total_size_mb", StatRound2 total_size (1024 * 1024));
     ("oldest", StatStr (last_modified oldest));
     ("newest", StatStr (last_modified newest));
     ("bucket", StatStr S3_BUCKET);
     ("prefix", StatStr S3_PREFIX)]%string
  | _, _ =>
    [("count", StatInt 0); ("total_size_bytes", StatInt 0);
     ("oldest", StatNone); ("newest", StatNone)]%string
  end.

(** The settings that [run_backup_job] and the statistics read. *)
Record backup_config := {
  PARENT_FOLDER_ID : str;              (* empty when not set *)
  BACKUP_RETENTION_DAYS : Z;
  S3_ENABLED : bool;
  S3_BUCKET : str;
  S3_PREFIX : str;
  EMAIL_ENABLED : bool
}.

(** What the calls made by one [run_backup_job] return. *)
Record job_env := {
  gdrive_file_id : option str;         (* backup_to_gdrive() *)
  gdrive_backups : list drive_file;    (* list_backups() in get_backup_stats() *)
  s3_backup_key : option str;          (* backup_to_s3() *)
  s3_backups : list s3_backup;         (* list_s3_backups() in get_s3_backup_stats() *)
  email_sent : bool                    (* backup_to_email() *)
}.

(** The calls of [run_backup_job], in the order in which they are made. *)
Inductive job_call :=
| CallBackupToGdrive
| CallCleanupOldBackups
| CallGetBackupStats
| CallBackupToS3
| CallCleanupOldS3Backups
| CallGetS3BackupStats
| CallBackupToEmail.

Inductive key_error := KeyError (key : string).

(** The two subscripts of the statistics line that is logged. *)
Definition log_stats (stats : stats_dict) : option key_error :=
  match subscript stats "count" with
  | None => Some (KeyError "count")
  | Some _ =>
    match subscript stats "total_size_mb" with
    | None => Some (KeyError "total_size_mb")
    | Some _ => None
    end
  end.

(** The Google Drive block of [run_backup_job]: the [KeyError] that leaves
    it or [gdrive_success], and the calls made. *)
Definition gdrive_block (cfg : backup_config) (env : job_env)
    (include_gdrive : bool) : (key_error + bool) * list job_call :=
  if include_gdrive && negb (is_empty (PARENT_FOLDER_ID cfg)) then
    match gdrive_file_id env with
    | Some _ =>
      (match log_stats (get_backup_stats (BACKUP_RETENTION_DAYS cfg)
                          (gdrive_backups env)) with
       | Some e => inl e
       | None => inr true
       end,
       [CallBackupToGdrive; CallCleanupOldBackups; CallGetBackupStats])
    | None => (inr false, [CallBackupToGdrive])
    end
  else (inr false, []).

(** Its S3 block. *)
Definition s3_block (cfg : backup_config) (env : job_env)
    (include_s3 : bool) : (key_error + bool) * list job_call :=
  if include_s3 && S3_ENABLED cfg then
    match s3_backup_key env with
    | Some _ =>
      (match log_stats (get_s3_backup_stats (S3_BUCKET cfg) (S3_PREFIX cfg)
                          (s3_backups env)) with
       | Some e => inl e
       | None => inr true
       end,
       [CallBackupToS3; CallCleanupOldS3Backups; CallGetS3BackupStats])
    | None => (inr false, [CallBackupToS3])
    end
  else (inr false, []).

(** [run_backup_job(include_gdrive, include_s3, include_email)]: the
    [KeyError] that leaves it, or the three flags of the summary
    ([gdrive_success], [s3_success], [email_success]); and the calls made. *)
Definition run_backup_job (cfg : backup_config) (env : job_env)
    (include_gdrive include_s3 include_email : bool)
    : (key_error + bool * bool * bool) * list job_call :=
  match gdrive_block cfg env include_gdrive with
  | (inl e, calls) => (inl e, calls)
  | (inr gdrive_success, calls) =>
    match s3_block cfg env include_s3 with
    | (inl e, calls') => (inl e, calls ++ calls')
    | (inr s3_success, calls') =>
      if include_email && EMAIL_ENABLED cfg then
        (inr (gdrive_success, s3_success, email_sent env),
         calls ++ calls' ++ [CallBackupToEmail])
      else (inr (gdrive_success, s3_success, false), calls ++ calls')
    end
  end.

(** The Google Drive upload went well and the list of backups that follows
    is empty. *)
Definition gdrive_breaks (cfg : backup_config) (env : job_env)
    (include_gdrive : bool) : Prop :=
  include_gdrive = true /\ PARENT_FOLDER_ID cfg <> []
  /\ is_Some (gdrive_file_id env) /\ gdrive_backups env = [].

(** The same for S3. *)
Definition s3_breaks (cfg : backup_config) (env : job_env)
    (include_s3 : bool) : Prop :=
  include_s3 = true /\ S3_ENABLED cfg = true
  /\ is_Some (s3_backup_key env) /\ s3_backups env = [].

End Backup.

Export Backup.

(** ** More sample inputs *)

Module MoreSamples.

(** The clock at day 1000, 30 days kept: an old backup, a young one, and an
    old object that is no backup. Every request is answered with one
    deletion. *)
Definition bucket_listing : s3_env :=
  {| s3_now := 1000 * MICROSECONDS_PER_DAY;
     s3_pages :=
       Some [[ {| Key := lit "mcp-backups/AGENTS_backup_old.md";
                  LastModified := 900 * MICROSECONDS_PER_DAY; Size := 10 |};
               {| Key := lit "mcp-backups/AGENTS_backup_new.md";
                  LastModified := 990 * MICROSECONDS_PER_DAY; Size := 12 |} ];
             [ {| Key := lit "mcp-backups/notes.txt";
                  LastModified := 100 * MICROSECONDS_PER_DAY; Size := 5 |} ]];
     s3_deleted := fun _ => Some 1%nat |}.

(** 1500 old backups in one page; the second request raises. *)
Definition second_request_fails : s3_env :=
  {| s3_now := 1000 * MICROSECONDS_PER_DAY;
     s3_pages :=
       Some [repeat {| Key := lit "AGENTS_backup_x"; LastModified := 0; Size := 1 |}
                    (N.to_nat 1500)];
     s3_deleted := fun i => match i with O => Some (N.to_nat 1000) | _ => None end |}.

End MoreSamples.

Export MoreSamples.

(** * Properties *)

(** ** The definitions on small inputs *)

Example strip_inner_space_kept :
  strip ([32; 9] ++ lit "a b" ++ [32; LF; 160])%N = lit "a b".
Proof. reflexivity. Qed.

Example isoformat_noon : isoformat noon = lit "2024-05-17T12:00:00.250000".
Proof. reflexivity. Qed.

Example isoformat_whole_second :
  isoformat {| year := 987; month := 1; day := 2;
               hour := 3; minute := 4; second := 5; microsecond := 0 |}
  = lit "0987-01-02T03:04:05".
Proof. reflexivity. Qed.

Example encode_e_acute_euro : encode [233; 8364]%N = Some [195; 169; 226; 130; 172]%N.
Proof. reflexivity. Qed.

Example encode_lone_surrogate : encode [97; 55296]%N = None.
Proof. reflexivity. Qed.

Example decode_overlong_slash : decode [192; 175]%N = None.
Proof. reflexivity. Qed.

Example decode_stops_at_truncation : decode [226; 130]%N = None.
Proof. reflexivity. Qed.

Example universal_newlines_mixed :
  universal_newlines [97; CR; LF; 98; CR; 99; LF; CR]%N = [97; LF; 98; LF; 99; LF; LF]%N.
Proof. reflexivity. Qed.

Example count_lines_last_line_open : count_lines (lit "a" ++ [LF] ++ lit "b") = 2.
Proof. reflexivity. Qed.

Example size_message : SIZE_EXCEEDED default_config
                       = lit "Error: Rule exceeds maximum size (10000 bytes).".
Proof. reflexivity. Qed.

Example first_entry :
  append_to_memory_file default_config (quiet noon) (lit "  keep it short ") None
  = (SUCCESS, Some ([LF] ++ lit "- [2024-05-17T12:00:00.250000] keep it short")).
Proof. reflexivity. Qed.

Example stats_of_initial_file :
  get_file_stats {| st_mtime := noon; stats_fault := None; stats_decode_error := [] |}
    (init_memory_file noon None)
  = [("exists", PyBool true); ("size_bytes", PyInt 67); ("line_count", PyInt 3);
     ("modified", PyStr (lit "2024-05-17T12:00:00.250000"))]%string.
Proof. reflexivity. Qed.

Example first_call_admitted :
  check_rate_limit default_config 1000 alice ∅ = (true, {[ alice := [1000%Q] ]}).
Proof. reflexivity. Qed.


(** ** Strings and the UTF-8 layer *)

Ltac div_lia := zify; Z.to_euclidean_division_equations; lia.

Ltac ltb_step :=
  match goal with
  | |- context [(?a <? ?b)%N] =>
    destruct (N.ltb_spec a b); try (exfalso; div_lia)
  | |- context [(?a <=? ?b)%N] =>
    destruct (N.leb_spec a b); try (exfalso; div_lia)
  end.

Lemma decode_encode_cp (c : codepoint) (b rest : bytes) :
  encode_cp c = Some b -> decode (b ++ rest) = cons c <$> decode rest.
Proof.
  unfold encode_cp, is_surrogate.
  repeat ltb_step; cbn [andb]; intros [= <-]; cbn [app decode];
    unfold is_cont, is_surrogate; cbv zeta.
  - repeat ltb_step. reflexivity.
  - assert (E : ((192 + c / 64 - 192) * 64 + (128 + c mod 64 - 128) = c)%N)
      by div_lia.
    rewrite E. repeat ltb_step. reflexivity.
  - assert (E : (((224 + c / 4096 - 224) * 64 + (128 + (c / 64) mod 64 - 128)) * 64
                 + (128 + c mod 64 - 128) = c)%N) by div_lia.
    rewrite E. repeat ltb_step. reflexivity.
  - assert (E : (((224 + c / 4096 - 224) * 64 + (128 + (c / 64) mod 64 - 128)) * 64
                 + (128 + c mod 64 - 128) = c)%N) by div_lia.
    rewrite E. repeat ltb_step. reflexivity.
  - assert (E : ((((240 + c / 262144 - 240) * 64 + (128 + (c / 4096) mod 64 - 128)) * 64
                  + (128 + (c / 64) mod 64 - 128)) * 64
                 + (128 + c mod 64 - 128) = c)%N) by div_lia.
    rewrite E. repeat ltb_step. reflexivity.
Qed.

Lemma encode_app (a b : str) :
  encode (a ++ b) =
  match encode a, encode b with
  | Some x, Some y => Some (x ++ y)
  | _, _ => None
  end.
Proof.
  induction a as [|c a IH]; cbn [app encode].
  - destruct (encode b); reflexivity.
  - rewrite IH. destruct (encode_cp c), (encode a), (encode b);
      try reflexivity. now rewrite app_assoc.
Qed.

Lemma encode_app_Some (a b : str) (x y : bytes) :
  encode a = Some x -> encode b = Some y -> encode (a ++ b) = Some (x ++ y).
Proof. intros Ha Hb. now rewrite encode_app, Ha, Hb. Qed.

(** What was written in text mode is read back as the same characters. *)
Lemma decode_encode (s : str) (bs : bytes) :
  encode s = Some bs -> decode bs = Some s.
Proof.
  revert bs. induction s as [|c s IH]; cbn [encode]; intros bs.
  - now intros [= <-].
  - destruct (encode_cp c) as [b|] eqn:Ec; [|discriminate].
    destruct (encode s) as [bs'|]; [|discriminate].
    intros [= <-]. rewrite (decode_encode_cp _ _ _ Ec), (IH _ eq_refl).
    reflexivity.
Qed.

Lemma encode_ascii (s : str) : Forall is_ascii s -> encode s = Some s.
Proof.
  induction 1 as [|c s Hc _ IH]; cbn [encode]; [reflexivity|].
  unfold encode_cp. unfold is_ascii in Hc.
  destruct (N.ltb_spec c 128); [|lia]. now rewrite IH.
Qed.

Lemma zfill_dec_ascii (w : nat) (n : N) : Forall is_ascii (zfill_dec w n).
Proof.
  revert n. induction w as [|w IH]; intros n; cbn [zfill_dec].
  - constructor.
  - apply Forall_app. split; [apply IH|].
    repeat constructor. unfold is_ascii. div_lia.
Qed.

Lemma lit_ascii (s : string) :
  forallb (fun c => (c <? 128)%N) (lit s) = true -> Forall is_ascii (lit s).
Proof.
  intros H. apply Forall_forall. intros c Hc.
  rewrite forallb_forall in H. apply N.ltb_lt, H, list_elem_of_In, Hc.
Qed.

Lemma isoformat_ascii (d : datetime) : Forall is_ascii (isoformat d).
Proof.
  unfold isoformat.
  rewrite !Forall_app.
  repeat split; try apply zfill_dec_ascii; try (apply lit_ascii; reflexivity).
  destruct (microsecond d =? 0)%N; [constructor|].
  rewrite Forall_app. split; [apply lit_ascii; reflexivity|apply zfill_dec_ascii].
Qed.

(** The bytes of an entry: the ASCII frame as it is, then the bytes of the
    trimmed body. *)
Lemma encode_formatted_rule (d : datetime) (rule : str) (bs : bytes) :
  encode (strip rule) = Some bs ->
  encode (formatted_rule (isoformat d) rule)
  = Some ([LF] ++ lit "- [" ++ isoformat d ++ lit "] " ++ bs).
Proof.
  intros Hb. unfold formatted_rule.
  apply (encode_app_Some [LF] _ [LF]); [reflexivity|].
  apply (encode_app_Some (lit "- [") _ (lit "- [")); [reflexivity|].
  apply encode_app_Some; [apply encode_ascii, isoformat_ascii|].
  apply (encode_app_Some (lit "] ") _ (lit "] ")); [reflexivity|exact Hb].
Qed.

Lemma universal_newlines_no_CR (s : str) :
  CR ∉ s -> universal_newlines s = s.
Proof.
  induction s as [|c s IH]; intros H; cbn [universal_newlines]; [reflexivity|].
  apply not_elem_of_cons in H as [Hc Hs].
  destruct (N.eqb_spec c CR); [congruence|]. now rewrite IH.
Qed.

Lemma lstrip_spaces (s : str) : forallb isspace s = true -> lstrip s = [].
Proof.
  induction s as [|c s IH]; cbn [forallb lstrip]; [reflexivity|].
  intros [Hc Hs]%andb_prop. rewrite Hc. auto.
Qed.

Lemma lstrip_nil_inv (s : str) : lstrip s = [] -> forallb isspace s = true.
Proof.
  induction s as [|c s IH]; cbn [forallb lstrip]; [reflexivity|].
  destruct (isspace c); [auto|discriminate].
Qed.

Lemma lstrip_suffix (s : str) : exists p, s = p ++ lstrip s /\ forallb isspace p = true.
Proof.
  induction s as [|c s (p & E & Hp)]; cbn [lstrip].
  - now exists [].
  - destruct (isspace c) eqn:Hc.
    + exists (c :: p). cbn [app forallb]. rewrite Hc, Hp.
      split; [now f_equal|reflexivity].
    + now exists [].
Qed.

(** A body is trimmed to nothing exactly when all of it is whitespace. *)
Lemma strip_nil_iff (s : str) : strip s = [] <-> forallb isspace s = true.
Proof.
  unfold strip, rstrip. split.
  - intros H. apply (f_equal (@rev _)) in H. rewrite rev_involutive in H.
    cbn [rev] in H. apply lstrip_nil_inv in H.
    destruct (lstrip_suffix s) as (p & E & Hp). rewrite E.
    rewrite forallb_app, Hp. cbn [andb].
    rewrite forallb_forall in H. apply forallb_forall. intros c Hc.
    apply H, in_rev. now rewrite rev_involutive.
  - intros H. rewrite (lstrip_spaces s H). reflexivity.
Qed.

(** ** The memory file *)

Lemma is_empty_spec (s : str) : is_empty s = true <-> s = [].
Proof. destruct s; cbn; split; congruence. Qed.

(** The guard of the first [if]: [not rule or not rule.strip()]. *)
Lemma empty_guard (rule : str) :
  is_empty rule || is_empty (strip rule) = true <-> strip rule = [].
Proof.
  rewrite orb_true_iff, !is_empty_spec. split; [|auto].
  intros [->|H]; [reflexivity|exact H].
Qed.

Lemma first_char_differs (a b : str) : hd 0%N a <> hd 0%N b -> a <> b.
Proof. congruence. Qed.

Lemma EMPTY_RULE_not_SUCCESS : EMPTY_RULE <> SUCCESS.
Proof. apply first_char_differs. vm_compute. discriminate. Qed.

Lemma SIZE_EXCEEDED_not_SUCCESS (cfg : config) : SIZE_EXCEEDED cfg <> SUCCESS.
Proof. apply first_char_differs. vm_compute. discriminate. Qed.

Lemma WRITE_ERROR_not_SUCCESS (e : str) : WRITE_ERROR e <> SUCCESS.
Proof. apply first_char_differs. vm_compute. discriminate. Qed.

(** The two validation messages differ (at their thirteenth character). *)
Lemma EMPTY_RULE_not_SIZE_EXCEEDED (cfg : config) : EMPTY_RULE <> SIZE_EXCEEDED cfg.
Proof.
  intros H. apply (f_equal (fun s => nth 12 s 0%N)) in H.
  vm_compute in H. discriminate.
Qed.

Lemma append_empty (cfg : config) (env : append_env) (rule : str) (fs : filesystem) :
  strip rule = [] ->
  append_to_memory_file cfg env rule fs = (EMPTY_RULE, fs).
Proof.
  intros H. apply empty_guard in H. unfold append_to_memory_file.
  now rewrite H.
Qed.

Lemma append_too_long (cfg : config) (env : append_env) (rule : str) (fs : filesystem) :
  strip rule <> [] -> (len rule > MAX_RULE_SIZE cfg)%Z ->
  append_to_memory_file cfg env rule fs = (SIZE_EXCEEDED cfg, fs).
Proof.
  intros H Hlen. unfold append_to_memory_file.
  destruct (is_empty rule || is_empty (strip rule)) eqn:G.
  - now apply empty_guard in G.
  - destruct (Z.gtb_spec (len rule) (MAX_RULE_SIZE cfg)); [reflexivity|lia].
Qed.

(** An accepted body on a run without exception. *)
Lemma append_accepted (cfg : config) (env : append_env) (rule : str)
    (fs : filesystem) (bs : bytes) :
  strip rule <> [] -> (len rule <= MAX_RULE_SIZE cfg)%Z ->
  fault env = None -> encode (strip rule) = Some bs ->
  append_to_memory_file cfg env rule fs
  = (SUCCESS,
     Some (default [] fs ++ [LF] ++ lit "- [" ++ isoformat (now env)
           ++ lit "] " ++ bs)).
Proof.
  intros H Hlen Hf Hb. unfold append_to_memory_file.
  destruct (is_empty rule || is_empty (strip rule)) eqn:G.
  - now apply empty_guard in G.
  - destruct (Z.gtb_spec (len rule) (MAX_RULE_SIZE cfg)); [lia|].
    rewrite Hf. now rewrite (encode_formatted_rule _ _ _ Hb).
Qed.

(** The success message is returned on one path only: the entry was
    encoded and all its bytes were put behind the old ones. *)
Lemma append_success_inv (cfg : config) (env : append_env) (rule : str)
    (fs fs' : filesystem) :
  append_to_memory_file cfg env rule fs = (SUCCESS, fs') ->
  exists bs, encode (rendered (env, rule)) = Some bs
             /\ fs' = Some (default [] fs ++ bs).
Proof.
  unfold append_to_memory_file, rendered. cbn [fst snd].
  destruct (is_empty rule || is_empty (strip rule)).
  { intros H%(f_equal fst). now destruct EMPTY_RULE_not_SUCCESS. }
  destruct (len rule >? MAX_RULE_SIZE cfg)%Z.
  { intros H%(f_equal fst). now destruct (SIZE_EXCEEDED_not_SUCCESS cfg). }
  destruct (fault env) as [[e|e|n e]|];
    try (intros H%(f_equal fst); now destruct (WRITE_ERROR_not_SUCCESS e)).
  - destruct (encode _) as [bs|];
      intros H%(f_equal fst); now destruct (WRITE_ERROR_not_SUCCESS _ H).
  - destruct (encode _) as [bs|].
    + intros [= <-]. now exists bs.
    + intros H%(f_equal fst). now destruct (WRITE_ERROR_not_SUCCESS _ H).
Qed.

(** No call, accepted or not, touches a byte that is in the file. *)
Lemma append_keeps_bytes (cfg : config) (env : append_env) (rule : str)
    (data : bytes) :
  exists tail,
    snd (append_to_memory_file cfg env rule (Some data)) = Some (data ++ tail).
Proof.
  unfold append_to_memory_file.
  destruct (is_empty rule || is_empty (strip rule)).
  { exists []. now rewrite app_nil_r. }
  destruct (len rule >? MAX_RULE_SIZE cfg)%Z.
  { exists []. now rewrite app_nil_r. }
  destruct (fault env) as [[e|e|n e]|]; cbn [default snd];
    try (exists []; now rewrite app_nil_r);
    destruct (encode _) as [bs|]; cbn [snd]; eauto;
    exists []; now rewrite app_nil_r.
Qed.

Lemma run_appends_cons (cfg : config) (env : append_env) (rule : str)
    (calls : list (append_env * str)) (fs : filesystem) :
  run_appends cfg ((env, rule) :: calls) fs
  = (fst (append_to_memory_file cfg env rule fs)
       :: fst (run_appends cfg calls (snd (append_to_memory_file cfg env rule fs))),
     snd (run_appends cfg calls (snd (append_to_memory_file cfg env rule fs)))).
Proof.
  cbn [run_appends]. destruct (append_to_memory_file cfg env rule fs) as [r fs1].
  cbn [fst snd]. now destruct (run_appends cfg calls fs1).
Qed.

Lemma run_appends_success (cfg : config) (calls : list (append_env * str))
    (data : bytes) :
  Forall (eq SUCCESS) (fst (run_appends cfg calls (Some data))) ->
  exists tail,
    encode (concat (map rendered calls)) = Some tail
    /\ snd (run_appends cfg calls (Some data)) = Some (data ++ tail).
Proof.
  revert data. induction calls as [|[env rule] calls IH]; intros data.
  - intros _. exists []. cbn. now rewrite app_nil_r.
  - rewrite run_appends_cons. cbn [fst snd map concat].
    intros [Hr Hrs]%Forall_cons.
    destruct (append_to_memory_file cfg env rule (Some data)) as [r fs1] eqn:E.
    cbn [fst snd] in *. subst r.
    apply append_success_inv in E as (bs & Eb & ->).
    cbn [from_option id] in *.
    destruct (IH _ Hrs) as (tail & Et & Es).
    exists (bs ++ tail). split; [now apply encode_app_Some|].
    rewrite app_assoc. exact Es.
Qed.





Lemma not_has_CR (s : str) : has_CR s = false -> CR ∉ s.
Proof.
  unfold has_CR. intros H Hin. apply list_elem_of_In in Hin.
  assert (existsb (N.eqb CR) s = true) as E
    by (apply existsb_exists; exists CR; split; [exact Hin|apply N.eqb_refl]).
  congruence.
Qed.

Lemma init_memory_file_content (d : datetime) :
  exists data, encode (initial_content d) = Some data
               /\ init_memory_file d None = Some data.
Proof.
  unfold init_memory_file, initial_content.
  assert (E : encode (HEADER ++ lit "- System initialized on " ++ isoformat d ++ [LF])
              = Some (HEADER ++ lit "- System initialized on " ++ isoformat d ++ [LF])).
  { apply encode_ascii. rewrite !Forall_app.
    repeat split; try (apply lit_ascii; reflexivity);
      try apply isoformat_ascii; repeat constructor; reflexivity. }
  rewrite E. eauto.
Qed.

(** ** C1: the file only grows, and what [Read] gives back *)

(** C1, as stated, fails: a body with a carriage return inside is written
    as it is, and [read_memory_file], which opens the file in text mode,
    gives it back as a line feed. After the accepted call [Append("a\rb")] on
    the initialized file, [Read] is not the initial content followed by the
    rendered entry. *)
Lemma read_after_append_translates_CR :
  fst (run_appends default_config [cr_call] initial_file) = [SUCCESS]
  /\ read_memory_file quiet_read initial_file = initial_content noon
  /\ read_memory_file quiet_read
       (snd (run_appends default_config [cr_call] initial_file))
     = initial_content noon ++ [LF] ++ lit "- [2024-05-17T12:00:00.250000] a"
       ++ [LF] ++ lit "b"
  /\ rendered cr_call
     = [LF] ++ lit "- [2024-05-17T12:00:00.250000] a" ++ [CR] ++ lit "b"
  /\ read_memory_file quiet_read
       (snd (run_appends default_config [cr_call] initial_file))
     <> initial_content noon ++ rendered cr_call.
Proof.
  split; [reflexivity|]. split; [reflexivity|].
  split; [reflexivity|]. split; [reflexivity|].
  vm_compute. discriminate.
Qed.

(** C1, amended: from a file that holds the text [s0], after calls that all
    returned the success message, the file holds the old bytes followed by
    the UTF-8 bytes of the rendered entries in call order, each entry being
    a line feed, ["- ["], the ISO timestamp of the call's clock, ["] "] and
    the trimmed body; [Read] returns [s0] followed by these entries with
    every CR LF pair and every other CR read as LF, that is, exactly
    [s0] followed by the entries when no carriage return occurs in them;
    and no call, accepted or not, alters or removes a byte of the file. *)
Theorem append_only_read (cfg : config) (s0 : str) (data0 : bytes)
    (calls : list (append_env * str)) (renv : read_env) :
  encode s0 = Some data0 ->
  read_fault renv = None ->
  Forall (eq SUCCESS) (fst (run_appends cfg calls (Some data0))) ->
  let entries := concat (map rendered calls) in
  let fs := snd (run_appends cfg calls (Some data0)) in
  (exists tail, encode entries = Some tail /\ fs = Some (data0 ++ tail))
  /\ Forall (fun c => rendered c = [LF] ++ lit "- [" ++ isoformat (now (fst c))
                                   ++ lit "] " ++ strip (snd c)) calls
  /\ read_memory_file renv fs = universal_newlines (s0 ++ entries)
  /\ (has_CR (s0 ++ entries) = false -> read_memory_file renv fs = s0 ++ entries)
  /\ (forall env rule data, exists tail,
        snd (append_to_memory_file cfg env rule (Some data)) = Some (data ++ tail)).
Proof.
  intros H0 Hr Hs entries fs.
  destruct (run_appends_success cfg calls data0 Hs) as (tail & Et & Ef).
  assert (R : read_memory_file renv fs = universal_newlines (s0 ++ entries)).
  { unfold fs. rewrite Ef. unfold read_memory_file. rewrite Hr.
    now rewrite (decode_encode (s0 ++ entries) (data0 ++ tail)
                   (encode_app_Some _ _ _ _ H0 Et)). }
  split; [now exists tail|].
  split; [apply Forall_forall; now intros [env rule] _|].
  split; [exact R|].
  split; [|intros env rule data; apply append_keeps_bytes].
  intros Hcr. rewrite R. now apply universal_newlines_no_CR, not_has_CR.
Qed.

Lemma append_only_read_witness :
  read_memory_file quiet_read
    (snd (run_appends default_config two_calls initial_file))
  = initial_content noon ++ concat (map rendered two_calls).
Proof.
  refine (proj1 (proj2 (proj2 (proj2
    (append_only_read default_config (initial_content noon)
       (initial_content noon) two_calls quiet_read _ _ _)))) _).
  - reflexivity.
  - reflexivity.
  - vm_compute. repeat constructor.
  - reflexivity.
Defined.

(** ** C3: the size limit *)

(** The guard compares the number of characters, [len(rule)], of the raw
    body: at the limit the body passes, one character more is refused. *)
Lemma size_limit_counts_characters (cfg : config) (env : append_env)
    (rule : str) (fs : filesystem) (bs : bytes) :
  strip rule <> [] -> fault env = None -> encode (strip rule) = Some bs ->
  (len rule = MAX_RULE_SIZE cfg ->
   fst (append_to_memory_file cfg env rule fs) = SUCCESS)
  /\ (len rule = MAX_RULE_SIZE cfg + 1 ->
      append_to_memory_file cfg env rule fs = (SIZE_EXCEEDED cfg, fs))%Z.
Proof.
  intros Hs Hf Hb. split; intros Hl.
  - rewrite (append_accepted cfg env rule fs bs); auto. lia.
  - apply append_too_long; [exact Hs|lia].
Qed.

(** In UTF-8 an ASCII body has as many bytes as characters, so for such
    bodies the guard is the byte limit that the messages speak of. *)
Lemma ascii_bytes_are_characters (s : str) (bs : bytes) :
  Forall is_ascii s -> encode s = Some bs -> len bs = len s.
Proof. intros H. rewrite (encode_ascii s H). now intros [= <-]. Qed.

(** C3 on the code: with the default limit of 10000, the body of 9999 [x]
    and one [U+00E9] has 10001 bytes in UTF-8, one more than the limit, and
    10000 characters; it is accepted and its 10001 bytes are appended. *)
Theorem multibyte_body_over_limit_accepted (d : datetime) (fs : filesystem) :
  exists bs,
    encode accented_rule = Some bs
    /\ (len bs = MAX_RULE_SIZE default_config + 1)%Z
    /\ len accented_rule = MAX_RULE_SIZE default_config
    /\ append_to_memory_file default_config (quiet d) accented_rule fs
       = (SUCCESS,
          Some (default [] fs ++ [LF] ++ lit "- [" ++ isoformat d ++ lit "] " ++ bs)).
Proof.
  assert (exists bs, encode accented_rule = Some bs
                     /\ (len bs = 10001)%Z /\ strip accented_rule = accented_rule)
    as (bs & E & L & S).
  { eexists. split; [vm_compute; reflexivity|]. split; vm_compute; reflexivity. }
  exists bs. split; [exact E|]. split; [exact L|]. split; [reflexivity|].
  apply append_accepted.
  - rewrite S. discriminate.
  - vm_compute. discriminate.
  - reflexivity.
  - now rewrite S.
Qed.

(** ** C7: the file after an error *)




(** ** C8: whitespace bodies *)

(** C8: a body made of whitespace only (the empty body too) is refused with
    the empty-rule message whatever its length, also above the limit; this
    message is not the size message; the file is not touched. With a limit
    of at least one character, [Append("x")] on a run without exception
    returns the success message and appends its entry. *)
Theorem whitespace_body_rejected (cfg : config) (env : append_env)
    (fs : filesystem) :
  (forall rule, forallb isspace rule = true ->
     append_to_memory_file cfg env rule fs = (EMPTY_RULE, fs))
  /\ EMPTY_RULE <> SIZE_EXCEEDED cfg
  /\ EMPTY_RULE <> SUCCESS
  /\ ((1 <= MAX_RULE_SIZE cfg)%Z -> fault env = None ->
      append_to_memory_file cfg env (lit "x") fs
      = (SUCCESS,
         Some (default [] fs ++ [LF] ++ lit "- [" ++ isoformat (now env)
               ++ lit "] x"))).
Proof.
  split; [|split; [|split]].
  - intros rule H. now apply append_empty, strip_nil_iff.
  - apply EMPTY_RULE_not_SIZE_EXCEEDED.
  - apply EMPTY_RULE_not_SUCCESS.
  - intros Hm Hf. apply append_accepted; try reflexivity; try assumption.
    discriminate.
Qed.

Lemma whitespace_body_rejected_witness :
  append_to_memory_file default_config (quiet noon) blank_rule None
  = (EMPTY_RULE, None)
  /\ fst (append_to_memory_file default_config (quiet noon) (lit "x") None) = SUCCESS.
Proof.
  destruct (whitespace_body_rejected default_config (quiet noon) None)
    as (H1 & _ & _ & H2).
  split.
  - apply H1. vm_compute. reflexivity.
  - rewrite H2; [reflexivity|vm_compute; discriminate|reflexivity].
Defined.

(** ** C9: [get_file_stats] *)

(** C9, as stated, fails on its last part: when the file is there and [open]
    is refused, the result carries the error text and says that the file
    does not exist. *)
Lemma stats_error_says_absent :
  initial_file = Some (initial_content noon)
  /\ get_file_stats (no_permission noon) initial_file
     = [("exists", PyBool false);
        ("error", PyStr (lit "[Errno 13] Permission denied: 'AGENTS.md'"))]%string.
Proof. split; reflexivity. Qed.

(** C9, amended: [get_file_stats] always returns a dictionary. For a missing
    file it is [exists=False], [size_bytes=0], [line_count=0],
    [modified=None]. For a file that is there it is either the full result,
    with [exists=True] and the size in bytes, or, on any failure, the partial
    result made of [exists=False] and the error text; so the flag is [True]
    only for an existing file, and [False] says nothing about existence. *)
Theorem get_file_stats_total (env : stats_env) (fs : filesystem) :
  (fs = None ->
   get_file_stats env fs
   = [("exists", PyBool false); ("size_bytes", PyInt 0);
      ("line_count", PyInt 0); ("modified", PyNone)]%string)
  /\ (forall data, fs = Some data ->
      (exists e, get_file_stats env fs
                 = [("exists", PyBool false); ("error", PyStr e)]%string)
      \/ (dict_get "exists" (get_file_stats env fs) = Some (PyBool true)
          /\ dict_get "size_bytes" (get_file_stats env fs) = Some (PyInt (len data))
          /\ dict_get "error" (get_file_stats env fs) = None
          /\ stats_fault env = None))
  /\ (dict_get "exists" (get_file_stats env fs) = Some (PyBool true) ->
      fs <> None).
Proof.
  split; [now intros ->|]. split.
  - intros data ->. unfold get_file_stats.
    destruct (stats_fault env) as [e|]; [left; eauto|].
    destruct (decode data) as [content|]; [right|left; eauto].
    repeat split; reflexivity.
  - destruct fs; [discriminate|]. cbn. discriminate.
Qed.

Lemma get_file_stats_total_witness :
  get_file_stats (no_permission noon) None
  = [("exists", PyBool false); ("size_bytes", PyInt 0);
     ("line_count", PyInt 0); ("modified", PyNone)]%string.
Proof.
  exact (proj1 (get_file_stats_total (no_permission noon) None) eq_refl).
Defined.

(** ** C10: the not-found answer of [read_memory_file] *)

(** C10: [read_memory_file] returns a string on every path; for a missing
    file this string is ["Error: Memory file not found."]; and a file that
    is there with that very text as its content gives the same string, so
    the two cannot be told apart by the returned value. *)
Theorem not_found_is_in_band :
  (forall env, read_memory_file env None = lit "Error: Memory file not found.")
  /\ exists data : bytes,
       encode (lit "Error: Memory file not found.") = Some data
       /\ forall text,
            read_memory_file {| read_fault := None; decode_error := text |} (Some data)
            = read_memory_file {| read_fault := None; decode_error := text |} None.
Proof.
  split; [reflexivity|].
  exists (lit "Error: Memory file not found."). split; reflexivity.
Qed.

(** ** The rate limiter *)

Lemma Qlt_bool_iff (x y : Q) : Qlt_bool x y = true <-> (x < y)%Q.
Proof.
  unfold Qlt_bool. rewrite negb_true_iff. split.
  - intros H. apply Qnot_le_lt. intros Hle. apply Qle_bool_iff in Hle. congruence.
  - intros H. destruct (Qle_bool y x) eqn:E; [|reflexivity].
    apply Qle_bool_iff in E. now apply Qlt_not_le in H.
Qed.

Lemma in_window_iff (cfg : config) (now t : Q) :
  in_window cfg now t = true <-> (now - t < inject_Z (RATE_LIMIT_WINDOW cfg))%Q.
Proof. apply Qlt_bool_iff. Qed.

Lemma in_window_false_iff (cfg : config) (now t : Q) :
  in_window cfg now t = false <-> (inject_Z (RATE_LIMIT_WINDOW cfg) <= now - t)%Q.
Proof.
  rewrite <- not_true_iff_false, in_window_iff. split.
  - apply Qnot_lt_le.
  - apply Qle_not_lt.
Qed.

(** A call only looks at, and only writes, the list of its own client. *)
Lemma check_rate_limit_step (cfg : config) (now : Q) (client_ip : str) (st : store) :
  check_rate_limit cfg now client_ip st
  = (fst (window_step cfg now (default [] (st !! client_ip))),
     <[client_ip := snd (window_step cfg now (default [] (st !! client_ip)))]> st).
Proof.
  unfold check_rate_limit, window_step.
  destruct (RATE_LIMIT_REQUESTS cfg <=? _)%Z; cbn [fst snd]; [reflexivity|].
  now rewrite insert_insert_eq.
Qed.


(** ** C4: three calls a minute *)



Lemma window_step_all_expired (cfg : config) (now : Q) (l : list Q) :
  Forall (fun t => in_window cfg now t = false) l ->
  (0 < RATE_LIMIT_REQUESTS cfg)%Z ->
  window_step cfg now l = (true, [now]).
Proof.
  intros Hl Hn. unfold window_step.
  assert (E : List.filter (in_window cfg now) l = []).
  { clear Hn. induction Hl as [|t l Ht _ IH]; cbn [List.filter]; [reflexivity|].
    now rewrite Ht, IH. }
  rewrite E. change (len (@nil Q)) with 0%Z.
  destruct (Z.leb_spec (RATE_LIMIT_REQUESTS cfg) 0); [lia|reflexivity].
Qed.



(** ** C5: what a call leaves in the store *)

Lemma filter_in_window (cfg : config) (now : Q) (l : list Q) :
  Forall (fun t => (now - t < inject_Z (RATE_LIMIT_WINDOW cfg))%Q)
         (List.filter (in_window cfg now) l).
Proof.
  apply Forall_forall. intros t Ht%list_elem_of_In%filter_In.
  now apply in_window_iff.
Qed.

(** C5: after a call at clock reading [now], admitted or denied, from any
    store (the reachable ones among them), the list stored for the client
    holds only timestamps of age below the window, and after an admission it
    has at most [RATE_LIMIT_REQUESTS] elements. The window is a positive
    number of seconds. *)
Theorem window_invariant (cfg : config) (now : Q) (client_ip : str) (st : store) :
  (0 < RATE_LIMIT_WINDOW cfg)%Z ->
  exists l,
    snd (check_rate_limit cfg now client_ip st) !! client_ip = Some l
    /\ Forall (fun t => (now - t < inject_Z (RATE_LIMIT_WINDOW cfg))%Q) l
    /\ (fst (check_rate_limit cfg now client_ip st) = true ->
        (len l <= RATE_LIMIT_REQUESTS cfg)%Z).
Proof.
  intros Hw. rewrite check_rate_limit_step. cbn [fst snd].
  eexists. split; [apply lookup_insert_eq|].
  unfold window_step.
  destruct (Z.leb_spec (RATE_LIMIT_REQUESTS cfg)
              (len (List.filter (in_window cfg now) (default [] (st !! client_ip)))))
    as [Hle|Hlt]; cbn [fst snd].
  - split; [apply filter_in_window|discriminate].
  - split.
    + apply Forall_app. split; [apply filter_in_window|].
      repeat constructor.
      assert (0 < inject_Z (RATE_LIMIT_WINDOW cfg))%Q
        by (change 0%Q with (inject_Z 0); now rewrite <- Zlt_Qlt).
      lra.
    + intros _. unfold len in *. rewrite length_app. cbn [length]. lia.
Qed.

Lemma window_invariant_witness :
  exists l,
    snd (check_rate_limit default_config 1000 alice {[ alice := [900; 990]%Q ]})
      !! alice = Some l
    /\ Forall (fun t => (1000 - t < 60)%Q) l.
Proof.
  destruct (window_invariant default_config 1000 alice {[ alice := [900; 990]%Q ]})
    as (l & Hl & Hw & _).
  - reflexivity.
  - exists l. split; [exact Hl|exact Hw].
Defined.

(** ** C6: a denied call *)

Lemma filter_same_length {A} (f : A -> bool) (l : list A) :
  length (List.filter f l) = length l -> List.filter f l = l.
Proof.
  induction l as [|x l IH]; cbn [List.filter]; [reflexivity|].
  destruct (f x); cbn [length]; intros H.
  - f_equal. apply IH. lia.
  - pose proof (List.filter_length_le f l). lia.
Qed.

(** In a store that the process can be in, no list is longer than the
    limit. *)
Lemma reachable_bounded (cfg : config) (st : store) :
  reachable cfg st ->
  forall client_ip l, st !! client_ip = Some l ->
    (len l <= Z.max 0 (RATE_LIMIT_REQUESTS cfg))%Z.
Proof.
  induction 1 as [|st now c Hst IH]; intros client_ip l.
  - now rewrite lookup_empty.
  - rewrite check_rate_limit_step. cbn [snd].
    destruct (decide (c = client_ip)) as [->|Hne].
    2: { rewrite lookup_insert_ne by exact Hne. apply IH. }
    rewrite lookup_insert_eq. intros [= <-]. unfold window_step.
    set (old := default [] (st !! client_ip)).
    assert (Hold : (len old <= Z.max 0 (RATE_LIMIT_REQUESTS cfg))%Z).
    { unfold old. destruct (st !! client_ip) as [l0|] eqn:E; cbn.
      - now apply (IH client_ip).
      - unfold len. cbn. lia. }
    pose proof (List.filter_length_le (in_window cfg now) old) as Hf.
    destruct (Z.leb_spec (RATE_LIMIT_REQUESTS cfg)
                (len (List.filter (in_window cfg now) old))); cbn [snd];
      unfold len in *; [lia|]. rewrite length_app. cbn [length]. lia.
Qed.

Lemma reachable_run_checks (cfg : config) (client_ip : str) (times : list Q)
    (st : store) :
  reachable cfg st -> reachable cfg (snd (run_checks cfg client_ip times st)).
Proof.
  revert st. induction times as [|now rest IH]; intros st Hst; [exact Hst|].
  cbn [run_checks].
  pose proof (reachable_call cfg st now client_ip Hst) as H1.
  destruct (check_rate_limit cfg now client_ip st) as [ok st1].
  specialize (IH st1 H1).
  now destruct (run_checks cfg client_ip rest st1).
Qed.

(** C6, as stated, fails: the pruned list is stored before the limit is
    tested. A denied call drops the expired timestamp of a list that holds
    more than the limit; and, with a limit of 0, the denied first call of a
    client at start-up leaves an entry for this client in the store. *)
Lemma denied_call_changes_store :
  (fst (check_rate_limit three_per_minute 1000 alice crowded) = false
   /\ snd (check_rate_limit three_per_minute 1000 alice crowded)
      = {[ alice := [1000; 1000; 1000]%Q ]}
   /\ snd (check_rate_limit three_per_minute 1000 alice crowded) <> crowded)
  /\ (reachable closed_door ∅
      /\ fst (check_rate_limit closed_door 1000 alice ∅) = false
      /\ snd (check_rate_limit closed_door 1000 alice ∅) = {[ alice := [] ]}
      /\ snd (check_rate_limit closed_door 1000 alice ∅) <> ∅).
Proof.
  split.
  - split; [reflexivity|].
    assert (E : snd (check_rate_limit three_per_minute 1000 alice crowded)
                = {[ alice := [1000; 1000; 1000]%Q ]}).
    { rewrite check_rate_limit_step. cbn [snd]. unfold crowded.
      rewrite lookup_singleton_eq. cbn [from_option id].
      now rewrite insert_singleton_eq. }
    split; [exact E|]. rewrite E. unfold crowded.
    intros H%(f_equal (fun m : store => m !! alice)).
    rewrite !lookup_singleton_eq in H. discriminate.
  - split; [constructor|]. split; [reflexivity|].
    assert (E : snd (check_rate_limit closed_door 1000 alice ∅) = {[ alice := [] ]}).
    { rewrite check_rate_limit_step. cbn [snd]. rewrite lookup_empty.
      cbn [from_option id]. now rewrite insert_empty. }
    split; [exact E|]. rewrite E.
    intros H%(f_equal (fun m : store => m !! alice)).
    rewrite lookup_singleton_eq, lookup_empty in H. discriminate.
Qed.

(** C6, amended: a denied call records nothing and touches no other client;
    all it does is store the pruned list of its client. In every store that
    the process can be in, with a limit of at least 1, this list is the one
    that was stored, and the store is left unchanged. *)
Theorem denied_call_keeps_store (cfg : config) (now : Q) (client_ip : str)
    (st : store) :
  fst (check_rate_limit cfg now client_ip st) = false ->
  snd (check_rate_limit cfg now client_ip st)
  = <[client_ip := List.filter (in_window cfg now) (default [] (st !! client_ip))]> st
  /\ (forall other, other <> client_ip ->
      snd (check_rate_limit cfg now client_ip st) !! other = st !! other)
  /\ (reachable cfg st -> (1 <= RATE_LIMIT_REQUESTS cfg)%Z ->
      snd (check_rate_limit cfg now client_ip st) = st).
Proof.
  rewrite check_rate_limit_step. cbn [fst snd]. unfold window_step.
  set (old := default [] (st !! client_ip)).
  destruct (Z.leb_spec (RATE_LIMIT_REQUESTS cfg)
              (len (List.filter (in_window cfg now) old))) as [Hle|Hlt];
    cbn [fst snd]; [intros _|discriminate].
  split; [reflexivity|]. split.
  - intros other Hne. now rewrite lookup_insert_ne.
  - intros Hreach Hlim.
    pose proof (List.filter_length_le (in_window cfg now) old) as Hf.
    destruct (st !! client_ip) as [l|] eqn:E.
    + pose proof (reachable_bounded cfg st Hreach client_ip l E) as Hb.
      assert (Ek : List.filter (in_window cfg now) old = l).
      { unfold old in *. cbn [from_option id] in *.
        apply filter_same_length. unfold len in *. lia. }
      rewrite Ek. now apply insert_id.
    + unfold old, len in *. cbn in Hle. lia.
Qed.

Lemma denied_call_keeps_store_witness :
  snd (check_rate_limit three_per_minute 1010 alice full_window) = full_window.
Proof.
  refine (proj2 (proj2
    (denied_call_keeps_store three_per_minute 1010 alice full_window _)) _ _).
  - reflexivity.
  - apply reachable_run_checks. constructor.
  - vm_compute. discriminate.
Defined.

(** * More of the code *)

(** ** The limiter over a run *)


Lemma run_calls_cons (cfg : config) (client_ip : str) (now : Q)
    (rest : list (str * Q)) (st : store) :
  run_calls cfg ((client_ip, now) :: rest) st
  = (fst (check_rate_limit cfg now client_ip st)
       :: fst (run_calls cfg rest (snd (check_rate_limit cfg now client_ip st))),
     snd (run_calls cfg rest (snd (check_rate_limit cfg now client_ip st)))).
Proof.
  cbn [run_calls]. destruct (check_rate_limit cfg now client_ip st) as [ok st1].
  cbn [fst snd]. now destruct (run_calls cfg rest st1).
Qed.





(** X3: A call never touches the list of another client and never removes a
    client from the store: admitted or not, it leaves an entry for its own
    client, and the clients of the store are those it had and this one. *)
Theorem check_rate_limit_frame (cfg : config) (now : Q) (client_ip : str)
    (st : store) :
  (forall other, other <> client_ip ->
     snd (check_rate_limit cfg now client_ip st) !! other = st !! other)
  /\ is_Some (snd (check_rate_limit cfg now client_ip st) !! client_ip)
  /\ dom (snd (check_rate_limit cfg now client_ip st)) = {[client_ip]} ∪ dom st.
Proof.
  rewrite check_rate_limit_step. cbn [snd]. split; [|split].
  - intros other Hne. now rewrite lookup_insert_ne.
  - rewrite lookup_insert_eq. eauto.
  - apply dom_insert_L.
Qed.

(** X4: A client whose stored timestamps are all as old as the window or older
    (a new client among them) is admitted, when the limit is at least 1, and
    only the reading of this call is left in its list. *)
Theorem expired_client_admitted (cfg : config) (now : Q) (client_ip : str)
    (st : store) :
  (1 <= RATE_LIMIT_REQUESTS cfg)%Z ->
  Forall (fun t => (inject_Z (RATE_LIMIT_WINDOW cfg) <= now - t)%Q)
         (default [] (st !! client_ip)) ->
  check_rate_limit cfg now client_ip st = (true, <[client_ip := [now]]> st).
Proof.
  intros Hl He. rewrite check_rate_limit_step.
  rewrite window_step_all_expired; [reflexivity| |lia].
  eapply Forall_impl; [exact He|]. intros t Ht. now apply in_window_false_iff.
Qed.

Lemma expired_client_admitted_witness :
  check_rate_limit default_config 2000 alice {[ alice := [1000; 1940]%Q ]}
  = (true, <[alice := [2000%Q]]> {[ alice := [1000; 1940]%Q ]}).
Proof.
  apply expired_client_admitted.
  - vm_compute. discriminate.
  - rewrite lookup_singleton_eq. cbn [from_option id].
    repeat constructor; vm_compute; discriminate.
Defined.



(** ** Lines and sizes *)

Lemma count_lines_alt (s : str) :
  count_lines s
  = (length (List.filter is_LF s)
     + (if open_line s then 1 else 0))%nat.
Proof.
  unfold open_line.
  induction s as [|c r IH]; [reflexivity|].
  cbn [count_lines List.filter]. unfold is_LF at 1.
  destruct r as [|d r'].
  - cbn [last List.filter length]. destruct (c =? LF)%N; reflexivity.
  - rewrite IH. change (last (c :: d :: r')) with (last (d :: r')).
    destruct (c =? LF)%N; cbn [length]; lia.
Qed.

Lemma zfill_dec_printable (w : nat) (n : N) :
  forallb printable (zfill_dec w n) = true.
Proof.
  revert n. induction w as [|w IH]; intros n; cbn [zfill_dec]; [reflexivity|].
  rewrite forallb_app, IH. cbn [forallb andb]. rewrite andb_true_r.
  unfold printable. apply andb_true_intro.
  split; [apply N.leb_le|apply N.ltb_lt]; div_lia.
Qed.

Lemma zfill_dec_length (w : nat) (n : N) : length (zfill_dec w n) = w.
Proof.
  revert n. induction w as [|w IH]; intros n; cbn [zfill_dec]; [reflexivity|].
  rewrite length_app, IH. cbn. lia.
Qed.

Lemma isoformat_printable (d : datetime) : forallb printable (isoformat d) = true.
Proof.
  unfold isoformat. rewrite !forallb_app, !zfill_dec_printable.
  destruct (microsecond d =? 0)%N; [reflexivity|].
  now rewrite forallb_app, zfill_dec_printable.
Qed.

(** The timestamp has 19 characters, or 26 with the microseconds. *)
Lemma isoformat_length (d : datetime) :
  length (isoformat d) = if (microsecond d =? 0)%N then 19 else 26.
Proof.
  unfold isoformat. rewrite !length_app, !zfill_dec_length.
  destruct (microsecond d =? 0)%N; [reflexivity|].
  now rewrite length_app, zfill_dec_length.
Qed.

Lemma printable_no_breaks (s : str) :
  forallb printable s = true -> has_CR s = false /\ has_LF s = false.
Proof.
  induction s as [|c s IH]; [now split|].
  cbn [forallb]. intros [Hc Hs]%andb_prop. destruct (IH Hs) as [H1 H2].
  unfold has_CR, has_LF in *. cbn [existsb]. rewrite H1, H2, !orb_false_r.
  unfold printable in Hc. apply andb_prop in Hc as [Hc _]. apply N.leb_le in Hc.
  unfold is_LF. split; apply N.eqb_neq; unfold CR, LF; lia.
Qed.

Lemma has_CR_app (a b : str) : has_CR (a ++ b) = has_CR a || has_CR b.
Proof. apply existsb_app. Qed.

Lemma has_LF_app (a b : str) : has_LF (a ++ b) = has_LF a || has_LF b.
Proof. apply existsb_app. Qed.

Lemma no_LF_filter (s : str) : has_LF s = false -> List.filter is_LF s = [].
Proof.
  induction s as [|c s IH]; [reflexivity|].
  unfold has_LF. cbn [existsb List.filter].
  intros [Hc Hs]%orb_false_elim. rewrite Hc. now apply IH.
Qed.

Lemma open_line_no_LF (s : str) : s <> [] -> has_LF s = false -> open_line s = true.
Proof.
  intros Hs Hl. unfold open_line.
  destruct (last s) as [c|] eqn:E.
  - apply last_Some in E as [l ->]. rewrite has_LF_app in Hl.
    apply orb_false_elim in Hl as [_ Hl]. unfold has_LF in Hl. cbn in Hl.
    rewrite orb_false_r in Hl. unfold is_LF in Hl. now rewrite Hl.
  - now apply last_None in E.
Qed.

Lemma open_line_app (a b : str) : b <> [] -> open_line (a ++ b) = open_line b.
Proof.
  intros Hb. unfold open_line. destruct b as [|c b]; [congruence|].
  now rewrite last_app_cons.
Qed.

(** Behind any text, a line feed and a non-empty text without line feed add
    one line when the text ended inside a line, and two when it did not. *)
Lemma count_lines_extend (s t : str) :
  t <> [] -> has_LF t = false ->
  count_lines (s ++ [LF] ++ t)
  = (count_lines s + (if open_line s then 1 else 2))%nat.
Proof.
  intros Ht Hl. rewrite !count_lines_alt, !List.filter_app.
  rewrite (no_LF_filter t Hl), !length_app.
  rewrite open_line_app by (destruct t; discriminate).
  rewrite open_line_app by exact Ht. rewrite (open_line_no_LF t Ht Hl).
  cbn. destruct (open_line s); lia.
Qed.

(** ** What [strip] keeps *)

Lemma lstrip_head (s : str) (c : codepoint) (r : str) :
  lstrip s = c :: r -> isspace c = false.
Proof.
  induction s as [|x s IH]; cbn [lstrip]; [discriminate|].
  destruct (isspace x) eqn:E; [exact IH|]. now intros [= <- _].
Qed.

Lemma lstrip_fixed (c : codepoint) (r : str) :
  isspace c = false -> lstrip (c :: r) = c :: r.
Proof. intros H. cbn [lstrip]. now rewrite H. Qed.

Lemma rstrip_prefix (s : str) :
  exists q, s = rstrip s ++ q /\ forallb isspace q = true.
Proof.
  unfold rstrip. destruct (lstrip_suffix (rev s)) as (p & E & Hp).
  exists (rev p). split.
  - rewrite <- rev_app_distr, <- E. now rewrite rev_involutive.
  - rewrite forallb_forall in *. intros x Hx. apply Hp. now apply in_rev.
Qed.

Lemma rstrip_last (s l : str) (d : codepoint) :
  rstrip s = l ++ [d] -> isspace d = false.
Proof.
  unfold rstrip. intros H. apply (f_equal (@rev _)) in H.
  rewrite rev_involutive, rev_unit in H. now apply lstrip_head in H.
Qed.

(** The trimmed body is the body without a run of whitespace at each end. *)
Lemma strip_decompose (s : str) :
  exists p q, s = p ++ strip s ++ q
              /\ forallb isspace p = true /\ forallb isspace q = true.
Proof.
  unfold strip. destruct (lstrip_suffix s) as (p & E & Hp).
  destruct (rstrip_prefix (lstrip s)) as (q & Eq & Hq).
  exists p, q. split; [|now split]. now rewrite <- Eq.
Qed.

Lemma strip_first (s : str) (c : codepoint) (r : str) :
  strip s = c :: r -> isspace c = false.
Proof.
  unfold strip. intros H.
  destruct (rstrip_prefix (lstrip s)) as (q & Eq & _).
  rewrite H in Eq. cbn [app] in Eq. now apply lstrip_head in Eq.
Qed.

Lemma strip_last (s l : str) (d : codepoint) :
  strip s = l ++ [d] -> isspace d = false.
Proof. unfold strip. apply rstrip_last. Qed.

Lemma strip_fixed (s : str) (c d : codepoint) (r l : str) :
  s = c :: r -> s = l ++ [d] -> isspace c = false -> isspace d = false ->
  strip s = s.
Proof.
  intros Hc Hd Ec Ed. unfold strip, rstrip.
  rewrite Hc, (lstrip_fixed c r Ec), <- Hc, Hd, rev_unit.
  rewrite (lstrip_fixed d (rev l) Ed). now rewrite <- rev_unit, rev_involutive.
Qed.

Lemma strip_length (s : str) : (length (strip s) <= length s)%nat.
Proof.
  destruct (strip_decompose s) as (p & q & E & _).
  rewrite E at 2. rewrite !length_app. lia.
Qed.

Lemma encode_cp_length (c : codepoint) (b : bytes) :
  encode_cp c = Some b -> (1 <= length b <= 4)%nat.
Proof.
  unfold encode_cp.
  repeat match goal with
         | |- context [if ?b then _ else _] => destruct b
         end; intros [= <-]; cbn; lia.
Qed.

(** In UTF-8 a text has one to four bytes per character. *)
Lemma encode_length (s : str) (bs : bytes) :
  encode s = Some bs -> (length s <= length bs <= 4 * length s)%nat.
Proof.
  revert bs. induction s as [|c s IH]; cbn [encode]; intros bs.
  - intros [= <-]. cbn. lia.
  - destruct (encode_cp c) as [b|] eqn:Ec; [|discriminate].
    destruct (encode s) as [bs'|]; [|discriminate]. intros [= <-].
    pose proof (encode_cp_length c b Ec). specialize (IH bs' eq_refl).
    rewrite length_app. cbn [length]. lia.
Qed.

Lemma universal_newlines_length (s : str) :
  (length (universal_newlines s) <= length s)%nat.
Proof.
  assert (H : forall n s, (length s <= n)%nat ->
                          (length (universal_newlines s) <= length s)%nat).
  { clear s. induction n as [|n IH]; intros s Hn.
    - destruct s; [cbn; lia|cbn [length] in Hn; lia].
    - destruct s as [|c s]; [cbn; lia|].
      cbn [length] in Hn. cbn [universal_newlines].
      destruct (c =? CR)%N; cbn [length].
      + destruct s as [|d s']; cbn [length] in *; [lia|].
        destruct (d =? LF)%N.
        * specialize (IH s' ltac:(lia)). lia.
        * specialize (IH (d :: s') ltac:(cbn [length]; lia)).
          cbn [length] in IH. lia.
      + specialize (IH s ltac:(lia)). lia. }
  now apply (H (length s)).
Qed.

(** ** More on [append_to_memory_file] *)

(** What the success message tells about the call. *)
Lemma append_success_facts (cfg : config) (env : append_env) (rule : str)
    (fs fs' : filesystem) :
  append_to_memory_file cfg env rule fs = (SUCCESS, fs') ->
  strip rule <> [] /\ (len rule <= MAX_RULE_SIZE cfg)%Z /\ fault env = None.
Proof.
  unfold append_to_memory_file.
  destruct (is_empty rule || is_empty (strip rule)) eqn:G.
  { intros H%(f_equal fst). now destruct EMPTY_RULE_not_SUCCESS. }
  destruct (Z.gtb_spec (len rule) (MAX_RULE_SIZE cfg)) as [Hgt|Hle].
  { intros H%(f_equal fst). now destruct (SIZE_EXCEEDED_not_SUCCESS cfg). }
  assert (Hs : strip rule <> []).
  { intros E. apply empty_guard in E. congruence. }
  destruct (fault env) as [[e|e|n e]|];
    try (intros H%(f_equal fst); now destruct (WRITE_ERROR_not_SUCCESS e));
    [|intros _; now repeat split].
  destruct (encode _) as [bs|];
    intros H%(f_equal fst); now destruct (WRITE_ERROR_not_SUCCESS _ H).
Qed.

Lemma nonempty_ends {A} (s : list A) :
  s <> [] -> (exists c r, s = c :: r) /\ (exists l d, s = l ++ [d]).
Proof.
  intros Hs. split.
  - destruct s; [congruence|eauto].
  - destruct (exists_last Hs) as (l & d & ->). eauto.
Qed.

(** X6: An accepted body is written without the whitespace at its two ends and
    with everything between them: the entry is the line feed, ["- ["], the
    timestamp, ["] "] and a text that is not empty and neither begins nor
    ends with whitespace. *)
Theorem accepted_body_is_trimmed (cfg : config) (env : append_env)
    (rule : str) (fs fs' : filesystem) :
  append_to_memory_file cfg env rule fs = (SUCCESS, fs') ->
  exists p body q,
    rule = p ++ body ++ q
    /\ forallb isspace p = true /\ forallb isspace q = true
    /\ (exists c r, body = c :: r /\ isspace c = false)
    /\ (exists l d, body = l ++ [d] /\ isspace d = false)
    /\ exists bs,
         encode ([LF] ++ lit "- [" ++ isoformat (now env) ++ lit "] " ++ body)
         = Some bs
         /\ fs' = Some (default [] fs ++ bs).
Proof.
  intros H. destruct (append_success_facts _ _ _ _ _ H) as (Hs & _ & _).
  destruct (strip_decompose rule) as (p & q & E & Hp & Hq).
  destruct (nonempty_ends (strip rule) Hs) as [(c & r & Ec) (l & d & Ed)].
  exists p, (strip rule), q. repeat split; try assumption.
  - exists c, r. split; [exact Ec|]. now apply (strip_first rule c r).
  - exists l, d. split; [exact Ed|]. now apply (strip_last rule l d).
  - now apply append_success_inv in H.
Qed.

Lemma accepted_body_is_trimmed_witness :
  exists p body q,
    ([32; 9] ++ lit "keep  this" ++ [LF])%N = p ++ body ++ q
    /\ forallb isspace p = true /\ forallb isspace q = true
    /\ (exists c r, body = c :: r /\ isspace c = false)
    /\ (exists l d, body = l ++ [d] /\ isspace d = false).
Proof.
  destruct (accepted_body_is_trimmed default_config (quiet noon)
              ([32; 9] ++ lit "keep  this" ++ [LF])%N None
              (snd (append_to_memory_file default_config (quiet noon)
                      ([32; 9] ++ lit "keep  this" ++ [LF])%N None)))
    as (p & body & q & H1 & H2 & H3 & H4 & H5 & _).
  - reflexivity.
  - exists p, body, q. now repeat split.
Defined.

Lemma encode_app_inv (a b : str) (bs : bytes) :
  encode (a ++ b) = Some bs ->
  exists x y, encode a = Some x /\ encode b = Some y /\ bs = x ++ y.
Proof.
  rewrite encode_app. destruct (encode a) as [x|]; [|discriminate].
  destruct (encode b) as [y|]; [|discriminate]. intros [= <-]. eauto.
Qed.

(** The bytes of an entry: 6 for the frame, those of the timestamp (19 or
    26) and those of the trimmed body. *)
Lemma entry_bytes (d : datetime) (rule : str) (bs : bytes) :
  encode (formatted_rule (isoformat d) rule) = Some bs ->
  exists body, encode (strip rule) = Some body
               /\ bs = [LF] ++ lit "- [" ++ isoformat d ++ lit "] " ++ body
               /\ length bs = (6 + length (isoformat d) + length body)%nat.
Proof.
  unfold formatted_rule. intros H.
  apply encode_app_inv in H as (x1 & y1 & E1 & H & ->).
  apply encode_app_inv in H as (x2 & y2 & E2 & H & ->).
  apply encode_app_inv in H as (x3 & y3 & E3 & H & ->).
  apply encode_app_inv in H as (x4 & body & E4 & H & ->).
  rewrite (encode_ascii _ (isoformat_ascii d)) in E3.
  injection E1 as <-. injection E2 as <-. injection E3 as <-. injection E4 as <-.
  exists body. split; [exact H|]. split; [reflexivity|].
  rewrite !length_app. cbn [length]. change (length (lit "- [")) with 3.
  change (length (lit "] ")) with 2. unfold byte, codepoint in *. lia.
Qed.

(** X7: One call makes the file longer by at most 32 bytes and four times the
    size limit, whatever happens in it. *)
Theorem append_growth_bounded (cfg : config) (env : append_env) (rule : str)
    (data : bytes) :
  exists tail,
    snd (append_to_memory_file cfg env rule (Some data)) = Some (data ++ tail)
    /\ (len tail <= 4 * Z.max 0 (MAX_RULE_SIZE cfg) + 32)%Z.
Proof.
  assert (Z0 : (len (@nil byte) <= 4 * Z.max 0 (MAX_RULE_SIZE cfg) + 32)%Z)
    by (unfold len; cbn; lia).
  unfold append_to_memory_file.
  destruct (is_empty rule || is_empty (strip rule)).
  { exists []. now rewrite app_nil_r. }
  destruct (Z.gtb_spec (len rule) (MAX_RULE_SIZE cfg)) as [|Hlen].
  { exists []. now rewrite app_nil_r. }
  cbv zeta. cbn [from_option id].
  destruct (fault env) as [[e|e|n e]|];
    try (exists []; now rewrite app_nil_r);
    destruct (encode _) as [bs|] eqn:E;
    try (exists []; now rewrite app_nil_r); cbn [snd];
    apply entry_bytes in E as (body & Eb & _ & L);
    apply encode_length in Eb; pose proof (strip_length rule);
    pose proof (isoformat_length (now env)) as Hi;
    assert (length (isoformat (now env)) <= 26)%nat
      by (destruct (microsecond (now env) =? 0)%N; lia).
  - exists (firstn n bs). split; [reflexivity|].
    pose proof (List.length_firstn n bs). unfold len, byte, codepoint in *. lia.
  - exists bs. split; [reflexivity|]. unfold len, byte, codepoint in *. lia.
Qed.

(** X8: A body is not searched for line feeds: when two calls are accepted one
    after the other, the single call whose body is the first trimmed body
    followed by the second entry as it was rendered, timestamp included, is
    accepted too (if it fits the size limit) and leaves the same file. *)
Theorem body_can_carry_an_entry (cfg : config) (env1 env2 : append_env)
    (rule1 rule2 : str) (fs : filesystem) :
  fst (run_appends cfg [(env1, rule1); (env2, rule2)] fs) = [SUCCESS; SUCCESS] ->
  (len (strip rule1 ++ rendered (env2, rule2)) <= MAX_RULE_SIZE cfg)%Z ->
  run_appends cfg [(env1, strip rule1 ++ rendered (env2, rule2))] fs
  = ([SUCCESS], snd (run_appends cfg [(env1, rule1); (env2, rule2)] fs)).
Proof.
  rewrite !run_appends_cons. cbn [run_appends fst snd].
  destruct (append_to_memory_file cfg env1 rule1 fs) as [r1 fs1] eqn:E1.
  cbn [fst snd].
  destruct (append_to_memory_file cfg env2 rule2 fs1) as [r2 fs2] eqn:E2.
  cbn [fst snd]. intros [= -> ->] Hlen.
  destruct (append_success_facts _ _ _ _ _ E1) as (Hs1 & _ & Hf1).
  destruct (append_success_facts _ _ _ _ _ E2) as (Hs2 & _ & _).
  apply append_success_inv in E1 as (bs1 & Eb1 & ->).
  apply append_success_inv in E2 as (bs2 & Eb2 & ->).
  cbn [from_option id]. unfold rendered in Eb1. cbn [fst snd] in Eb1.
  apply entry_bytes in Eb1 as (body1 & Ebody1 & -> & _).
  set (forged := strip rule1 ++ rendered (env2, rule2)) in *.
  assert (Hfix : strip forged = forged).
  { destruct (nonempty_ends (strip rule1) Hs1) as [(c & r & Ec) _].
    destruct (nonempty_ends (strip rule2) Hs2) as [_ (l & d & Ed)].
    apply (strip_fixed forged c d (r ++ rendered (env2, rule2))
             (strip rule1 ++ [LF] ++ lit "- [" ++ isoformat (now env2)
              ++ lit "] " ++ l)).
    - unfold forged. now rewrite Ec.
    - unfold forged, rendered, formatted_rule. cbn [fst snd]. rewrite Ed.
      now rewrite <- !app_assoc.
    - now apply (strip_first rule1 c r).
    - now apply (strip_last rule2 l d). }
  rewrite (append_accepted cfg env1 forged fs (body1 ++ bs2)).
  - cbn [fst snd]. f_equal. f_equal. now rewrite <- !app_assoc.
  - rewrite Hfix. unfold forged. destruct (strip rule1); [congruence|discriminate].
  - exact Hlen.
  - exact Hf1.
  - rewrite Hfix. unfold forged. now apply encode_app_Some.
Qed.

Lemma body_can_carry_an_entry_witness :
  run_appends default_config
    [(quiet noon, lit "real" ++ [LF] ++ lit "- [1999-12-31T23:59:59] planted")]
    initial_file
  = ([SUCCESS],
     snd (run_appends default_config
            [(quiet noon, lit "real");
             ({| now := {| year := 1999; month := 12; day := 31; hour := 23;
                           minute := 59; second := 59; microsecond := 0 |};
                 fault := None; encode_error := [] |}, lit "planted")]
            initial_file)).
Proof.
  apply (body_can_carry_an_entry default_config (quiet noon)
           {| now := {| year := 1999; month := 12; day := 31; hour := 23;
                        minute := 59; second := 59; microsecond := 0 |};
              fault := None; encode_error := [] |}
           (lit "real") (lit "planted") initial_file).
  - reflexivity.
  - vm_compute. discriminate.
Defined.

(** ** Start-up *)

Lemma run_appends_keeps_file (cfg : config) (calls : list (append_env * str))
    (data : bytes) :
  exists tail, snd (run_appends cfg calls (Some data)) = Some (data ++ tail).
Proof.
  revert data. induction calls as [|[env rule] calls IH]; intros data.
  - exists []. cbn. now rewrite app_nil_r.
  - rewrite run_appends_cons. cbn [snd].
    destruct (append_keeps_bytes cfg env rule data) as (t1 & E1). rewrite E1.
    destruct (IH (data ++ t1)) as (t2 & E2).
    exists (t1 ++ t2). rewrite app_assoc. exact E2.
Qed.

Lemma initial_content_printable (d : datetime) :
  forallb printable (lit "- System initialized on " ++ isoformat d) = true.
Proof. now rewrite forallb_app, isoformat_printable. Qed.

(** X9: [init_memory_file] on a missing file makes the three lines of the
    header: [Read] returns them as written and the statistics count 3 lines
    and 41 bytes plus the timestamp. Once the file is there, whatever has
    been appended, a later [init_memory_file] leaves every byte of it. *)
Theorem init_memory_file_once (cfg : config) (d d' : datetime)
    (calls : list (append_env * str)) (text : str) :
  read_memory_file {| read_fault := None; decode_error := text |}
    (init_memory_file d None)
  = lit "# Agent Memory" ++ [LF; LF] ++ lit "- System initialized on "
    ++ isoformat d ++ [LF]
  /\ get_file_stats {| st_mtime := d'; stats_fault := None;
                       stats_decode_error := text |} (init_memory_file d None)
     = [("exists", PyBool true);
        ("size_bytes", PyInt (41 + len (isoformat d)));
        ("line_count", PyInt 3);
        ("modified", PyStr (isoformat d'))]%string
  /\ init_memory_file d' (snd (run_appends cfg calls (init_memory_file d None)))
     = snd (run_appends cfg calls (init_memory_file d None)).
Proof.
  destruct (init_memory_file_content d) as (data & E & Ei).
  assert (Ea : encode (initial_content d) = Some (initial_content d)).
  { apply encode_ascii. unfold initial_content. rewrite !Forall_app.
    repeat split; try (apply lit_ascii; reflexivity);
      try apply isoformat_ascii; repeat constructor; reflexivity. }
  rewrite Ea in E. injection E as <-.
  destruct (printable_no_breaks _ (isoformat_printable d)) as [Hcr Hlf].
  assert (Hn : universal_newlines (initial_content d) = initial_content d).
  { apply universal_newlines_no_CR, not_has_CR. unfold initial_content.
    now rewrite !has_CR_app, Hcr. }
  split; [|split].
  - rewrite Ei. cbn [read_memory_file read_fault].
    rewrite (decode_encode _ _ Ea), Hn. unfold initial_content, HEADER.
    now rewrite <- !app_assoc.
  - rewrite Ei. cbn [get_file_stats stats_fault st_mtime].
    rewrite (decode_encode _ _ Ea), Hn. repeat f_equal.
    + unfold initial_content, HEADER, len. rewrite !length_app.
      cbn [length]. change (length (lit "# Agent Memory")) with 14.
      change (length (lit "- System initialized on ")) with 24.
      unfold byte, codepoint in *. lia.
    + rewrite count_lines_alt. unfold initial_content, HEADER.
      rewrite !List.filter_app, (no_LF_filter _ Hlf), !length_app.
      rewrite !app_assoc, open_line_app by discriminate. reflexivity.
  - rewrite Ei. destruct (run_appends_keeps_file cfg calls (initial_content d))
      as (tail & ->). reflexivity.
Qed.

(** ** The routes *)

(** X10: The statistics in the answer of an accepted [POST /api/memory] are those
    of the file with the new entry: for a file of text without carriage
    return and a body that has, once trimmed, no line break, the size has
    grown by the bytes of the entry and the line count by one, or by two when
    the file did not end inside a line (as after [init_memory_file]). *)
Theorem write_response_stats (cfg : config) (env : append_env)
    (senv : stats_env) (rule s : str) (data : bytes) :
  encode s = Some data -> has_CR s = false ->
  has_CR (strip rule) = false -> has_LF (strip rule) = false ->
  stats_fault senv = None ->
  write_result (fst (api_write_memory cfg env senv rule (Some data))) = SUCCESS ->
  exists bs,
    encode (rendered (env, rule)) = Some bs
    /\ snd (api_write_memory cfg env senv rule (Some data)) = Some (data ++ bs)
    /\ write_stats (fst (api_write_memory cfg env senv rule (Some data)))
       = [("exists", PyBool true);
          ("size_bytes", PyInt (len data + len bs));
          ("line_count",
           PyInt (Z.of_nat (count_lines s + (if open_line s then 1 else 2))));
          ("modified", PyStr (isoformat (st_mtime senv)))]%string.
Proof.
  intros Es Hcs Hcr Hlf Hf. unfold api_write_memory.
  destruct (append_to_memory_file cfg env rule (Some data)) as [r fs'] eqn:E.
  cbn [fst snd write_result write_stats]. intros ->.
  destruct (append_success_facts _ _ _ _ _ E) as (Hne & _ & _).
  apply append_success_inv in E as (bs & Eb & ->). cbn [from_option id].
  exists bs. split; [exact Eb|]. split; [reflexivity|].
  unfold get_file_stats. rewrite Hf.
  rewrite (decode_encode _ _ (encode_app_Some _ _ _ _ Es Eb)).
  destruct (printable_no_breaks _ (isoformat_printable (now env))) as [Hci Hli].
  unfold rendered, formatted_rule. cbn [fst snd].
  rewrite universal_newlines_no_CR.
  2:{ apply not_has_CR. rewrite !has_CR_app, Hcs, Hci, Hcr. reflexivity. }
  rewrite count_lines_extend.
  - repeat f_equal. unfold len. rewrite length_app. lia.
  - discriminate.
  - rewrite !has_LF_app, Hli, Hlf. reflexivity.
Qed.

Lemma write_response_stats_witness :
  write_stats (fst (api_write_memory default_config (quiet noon)
                      {| st_mtime := noon; stats_fault := None;
                         stats_decode_error := [] |}
                      (lit "first") (Some (initial_content noon))))
  = [("exists", PyBool true); ("size_bytes", PyInt (67 + 37));
     ("line_count", PyInt 5);
     ("modified", PyStr (lit "2024-05-17T12:00:00.250000"))]%string.
Proof.
  destruct (write_response_stats default_config (quiet noon)
              {| st_mtime := noon; stats_fault := None; stats_decode_error := [] |}
              (lit "first") (initial_content noon) (initial_content noon))
    as (bs & Eb & _ & Hst); [reflexivity..|].
  etransitivity; [exact Hst|].
  vm_compute in Eb. injection Eb as <-. reflexivity.
Defined.

Lemma verify_api_key_step (cfg : config) (API_KEY : str) (now : Q)
    (client key : option str) (st : store) :
  verify_api_key cfg API_KEY now client key st
  = if bool_decide (key <> Some API_KEY) then
      (inl (HTTPException 403 (lit "Invalid or missing API Key")), st)
    else if fst (check_rate_limit cfg now (client_host client) st) then
      (inr [("key", PyStr API_KEY);
            ("client_ip", PyStr (client_host client))]%string,
       snd (check_rate_limit cfg now (client_host client) st))
    else
      (inl (HTTPException 429 (lit "Rate limit exceeded")),
       snd (check_rate_limit cfg now (client_host client) st)).
Proof.
  unfold verify_api_key. case_bool_decide as Hk; [reflexivity|].
  subst key. cbn [from_option id].
  now destruct (check_rate_limit cfg now (client_host client) st) as [[|] st'].
Qed.

(** X11: A request without the right key is refused with 403 before the limiter
    is asked: it uses up nothing of the quota of its client and writes
    nothing. A request refused by the limiter (429) writes nothing either.
    The handler runs, and the file can change, only for a request with the
    right key that the limiter admits. *)
Theorem refused_request_writes_nothing (cfg : config) (API_KEY : str) (now : Q)
    (client key : option str) (env : append_env) (senv : stats_env)
    (rule : str) (st : store) (fs : filesystem) :
  (key <> Some API_KEY ->
   POST_api_memory cfg API_KEY now client key env senv rule st fs
   = (inl (HTTPException 403 (lit "Invalid or missing API Key")), st, fs))
  /\ (forall e st' fs',
        POST_api_memory cfg API_KEY now client key env senv rule st fs
        = (inl e, st', fs') ->
        fs' = fs
        /\ (e = HTTPException 403 (lit "Invalid or missing API Key") /\ st' = st
            \/ e = HTTPException 429 (lit "Rate limit exceeded")
               /\ key = Some API_KEY
               /\ check_rate_limit cfg now (client_host client) st = (false, st')))
  /\ (forall body st' fs',
        POST_api_memory cfg API_KEY now client key env senv rule st fs
        = (inr body, st', fs') ->
        key = Some API_KEY
        /\ check_rate_limit cfg now (client_host client) st = (true, st')
        /\ append_to_memory_file cfg env rule fs = (write_result body, fs')).
Proof.
  unfold POST_api_memory. rewrite verify_api_key_step.
  case_bool_decide as Hk.
  - split; [reflexivity|]. split.
    + intros e st' fs' [= <- <- <-]. split; [reflexivity|]. now left.
    + intros body st' fs' [=].
  - split; [congruence|].
    destruct (check_rate_limit cfg now (client_host client) st) as [[|] st1];
      cbn [fst snd]; unfold api_write_memory;
      destruct (append_to_memory_file cfg env rule fs) as [r fs1]; split.
    + intros e st' fs' [=].
    + intros body st' fs' [= <- <- <-]. now repeat split.
    + intros e st' fs' [= <- <- <-]. split; [reflexivity|]. right. now repeat split.
    + intros body st' fs' [=].
Qed.

Lemma refused_request_writes_nothing_witness :
  POST_api_memory default_config (lit "s3cret") 1000 (Some alice)
    (Some (lit "guess")) (quiet noon) (no_permission noon) (lit "x") ∅ initial_file
  = (inl (HTTPException 403 (lit "Invalid or missing API Key")), ∅, initial_file).
Proof.
  apply (proj1 (refused_request_writes_nothing default_config (lit "s3cret") 1000
                  (Some alice) (Some (lit "guess")) (quiet noon)
                  (no_permission noon) (lit "x") ∅ initial_file)).
  vm_compute. discriminate.
Defined.

(** X12: The middleware of the MCP endpoint and the dependency of the REST routes
    decide alike: same store afterwards, 403 and 429 in the same cases with
    the same text, and the request goes on exactly when the dependency
    returns its dictionary. *)
Theorem dispatch_agrees_with_verify_api_key (cfg : config) (API_KEY : str)
    (now : Q) (client key : option str) (st : store) :
  snd (dispatch cfg API_KEY now client key st)
  = snd (verify_api_key cfg API_KEY now client key st)
  /\ match fst (verify_api_key cfg API_KEY now client key st) with
     | inl (HTTPException status_code detail) =>
       fst (dispatch cfg API_KEY now client key st)
       = JSONResponse status_code [("error", PyStr detail)]%string
     | inr _ => fst (dispatch cfg API_KEY now client key st) = CallNext
     end.
Proof.
  rewrite verify_api_key_step. unfold dispatch.
  case_bool_decide; [now split|].
  now destruct (check_rate_limit cfg now (client_host client) st) as [[|] st'].
Qed.

(** ** [backup.py]: the recipients of the backup mail *)

Lemma split_not_nil (sep : codepoint) (s : str) : split sep s <> [].
Proof.
  destruct s as [|c r]; cbn [split]; [discriminate|].
  destruct (c =? sep)%N; [discriminate|]. now destruct (split sep r).
Qed.

Lemma split_no_sep (sep : codepoint) (s piece : str) :
  In piece (split sep s) -> ~ In sep piece.
Proof.
  revert piece. induction s as [|c r IH]; intros piece; cbn [split].
  - intros [<-|[]] [].
  - destruct (N.eqb_spec c sep) as [->|Hne].
    + intros [<-|H]; [intros []|now apply IH].
    + destruct (split sep r) as [|p ps] eqn:E; [now destruct (split_not_nil sep r)|].
      intros [<-|H].
      * intros [->|Hin]; [congruence|]. apply (IH p); [now left|exact Hin].
      * apply IH. now right.
Qed.

Lemma split_all_space (sep : codepoint) (s : str) :
  forallb (forallb isspace) (split sep s)
  = forallb (fun c => isspace c || (c =? sep)%N) s.
Proof.
  induction s as [|c r IH]; [reflexivity|]. cbn [split forallb].
  destruct (c =? sep)%N.
  - cbn [forallb]. rewrite IH. now rewrite orb_true_r.
  - rewrite orb_false_r, <- IH.
    destruct (split sep r) as [|p ps] eqn:E; [now destruct (split_not_nil sep r)|].
    cbn [forallb]. now rewrite andb_assoc.
Qed.

Lemma strip_idempotent (s : str) : strip (strip s) = strip s.
Proof.
  destruct (strip s) as [|c r] eqn:E; [reflexivity|]. rewrite <- E.
  destruct (nonempty_ends (strip s)) as [(c' & r' & Ec) (l & d & Ed)];
    [now rewrite E|].
  apply (strip_fixed (strip s) c' d r' l Ec Ed).
  - now apply (strip_first s c' r').
  - now apply (strip_last s l d).
Qed.

(** X14: Every recipient handed to [sendmail] is a piece of [EMAIL_TO] between two
    commas without the whitespace around it: it is not empty, holds no comma
    and neither begins nor ends with whitespace. *)
Theorem recipients_are_clean (EMAIL_TO r : str) :
  In r (recipients EMAIL_TO) ->
  r <> [] /\ ~ In COMMA r /\ strip r = r
  /\ exists piece, In piece (split COMMA EMAIL_TO) /\ r = strip piece.
Proof.
  unfold recipients. intros [Hin Hne]%filter_In.
  apply in_map_iff in Hin as (piece & <- & Hp).
  split; [|split; [|split]].
  - destruct (strip piece); [discriminate|discriminate].
  - destruct (strip_decompose piece) as (p & q & E & _).
    intros Hc. apply (split_no_sep COMMA EMAIL_TO piece Hp).
    rewrite E. apply in_or_app. right. apply in_or_app. now left.
  - apply strip_idempotent.
  - eauto.
Qed.

Lemma recipients_are_clean_witness :
  lit "ops@example.org" <> [] /\ ~ In COMMA (lit "ops@example.org").
Proof.
  destruct (recipients_are_clean (lit " dev@example.org ,, ops@example.org")
              (lit "ops@example.org")) as (H1 & H2 & _).
  - vm_compute. right. left. reflexivity.
  - split; assumption.
Defined.

(** X15: No recipient is left exactly when [EMAIL_TO] is made of commas and
    whitespace only. *)
Theorem recipients_empty_iff (EMAIL_TO : str) :
  recipients EMAIL_TO = []
  <-> forallb (fun c => isspace c || (c =? COMMA)%N) EMAIL_TO = true.
Proof.
  rewrite <- split_all_space. unfold recipients.
  induction (split COMMA EMAIL_TO) as [|p ps IH]; [now split|].
  cbn [map List.filter forallb]. rewrite andb_true_iff, <- IH, <- strip_nil_iff.
  destruct (strip p) as [|c r] eqn:E; cbn [is_empty negb].
  - split; [now split|now intros [_ H]].
  - split; [discriminate|]. intros [H _]. discriminate.
Qed.

(** ** [backup.py]: the clean-up of the S3 backups *)

Lemma firstn_skipn_add {A} (a b : nat) (l : list A) :
  firstn a l ++ firstn b (skipn a l) = firstn (a + b) l.
Proof.
  revert l. induction a as [|a IH]; intros l; [reflexivity|].
  destruct l as [|x l]; cbn [firstn skipn app Nat.add].
  - now rewrite firstn_nil.
  - now rewrite IH.
Qed.

Lemma chunks_concat {A} (n : nat) (l : list A) :
  concat (map (fun i => firstn 1000 (skipn (1000 * i) l)) (seq 0 n))
  = firstn (1000 * n) l.
Proof.
  induction n as [|n IH]; [now rewrite Nat.mul_0_r|].
  rewrite seq_S, map_app, concat_app, IH. cbn [map concat Nat.add].
  rewrite app_nil_r, firstn_skipn_add. f_equal. lia.
Qed.

(** The batches are the collected keys, cut after every thousandth. *)
Lemma batches_concat {A} (l : list A) : concat (batches l) = l.
Proof.
  unfold batches. rewrite chunks_concat. apply firstn_all2.
  pose proof (Nat.div_mod (length l + 999) 1000 ltac:(lia)).
  pose proof (Nat.mod_upper_bound (length l + 999) 1000 ltac:(lia)). lia.
Qed.

Lemma batches_sizes {A} (l : list A) :
  Forall (fun b => (1 <= length b <= 1000)%nat) (batches l).
Proof.
  unfold batches. apply Forall_forall. intros b Hb.
  apply list_elem_of_In, in_map_iff in Hb as (i & <- & Hi).
  apply in_seq in Hi. rewrite length_firstn, length_skipn.
  pose proof (Nat.div_mod (length l + 999) 1000 ltac:(lia)).
  pose proof (Nat.mod_upper_bound (length l + 999) 1000 ltac:(lia)). lia.
Qed.

(** The requests sent are the first batches, up to the one that raises. *)
Lemma delete_batches_sent (env : s3_env) (todo : list (list str)) (i : nat) (n : Z) :
  exists k, snd (delete_batches env i todo n) = firstn k todo.
Proof.
  revert i n. induction todo as [|b rest IH]; intros i n; cbn [delete_batches].
  - now exists 0.
  - destruct (s3_deleted env i) as [m|]; [|now exists 1].
    destruct (IH (S i) (n + Z.of_nat m)%Z) as (k & Hk).
    destruct (delete_batches env (S i) rest (n + Z.of_nat m)) as [c sent].
    cbn [snd] in *. exists (S k). cbn [firstn]. now rewrite Hk.
Qed.

Lemma delete_batches_all (env : s3_env) (todo : list (list str)) (i : nat) (n : Z) :
  (forall j, (j < i + length todo)%nat -> is_Some (s3_deleted env j)) ->
  delete_batches env i todo n
  = ((n + fold_right Z.add 0
            (map (fun j => Z.of_nat (default 0%nat (s3_deleted env j)))
                 (seq i (length todo))))%Z,
     todo).
Proof.
  revert i n. induction todo as [|b rest IH]; intros i n Hall;
    cbn [delete_batches length seq map fold_right].
  - f_equal. lia.
  - destruct (Hall i ltac:(cbn [length]; lia)) as [m Hm]. rewrite Hm.
    rewrite IH by (intros j Hj; apply Hall; cbn [length]; lia).
    cbn [from_option id]. f_equal. lia.
Qed.

Lemma in_firstn_in {A} (k : nat) (x : A) (l : list A) : In x (firstn k l) -> In x l.
Proof. revert l. induction k; intros [|y l]; cbn; intuition. Qed.

Lemma cleanup_sent (S3_ENABLED S3_AVAILABLE : bool) (S3_BUCKET : str)
    (env : s3_env) (days : Z) (batch : list str) :
  In batch (snd (cleanup_old_s3_backups S3_ENABLED S3_AVAILABLE S3_BUCKET env days)) ->
  exists pages cutoff,
    s3_pages env = Some pages
    /\ minus_days (s3_now env) days = Some cutoff
    /\ In batch (batches (objects_to_delete cutoff pages)).
Proof.
  unfold cleanup_old_s3_backups.
  destruct (negb S3_ENABLED || negb S3_AVAILABLE || is_empty S3_BUCKET); [intros []|].
  destruct (s3_pages env) as [pages|]; [|intros []].
  destruct (minus_days (s3_now env) days) as [cutoff|]; [|intros []].
  destruct (objects_to_delete cutoff pages) as [|k ks] eqn:E; [intros []|].
  destruct (delete_batches_sent env (batches (k :: ks)) 0 0) as (n & ->).
  intros H%in_firstn_in. exists pages, cutoff. now rewrite E.
Qed.

(** X16: Whatever S3 answers, a key is put into a delete request only if the
    listing holds an object with this key, the key contains
    ["AGENTS_backup_"] and the object was last modified before the clock
    reading minus [days_to_keep] days; and no request has more than 1000
    keys or none. *)
Theorem s3_cleanup_deletes_only_old_backups (S3_ENABLED S3_AVAILABLE : bool)
    (S3_BUCKET : str) (env : s3_env) (days_to_keep : Z) (batch : list str) :
  In batch (snd (cleanup_old_s3_backups S3_ENABLED S3_AVAILABLE S3_BUCKET
                   env days_to_keep)) ->
  (1 <= length batch <= 1000)%nat
  /\ forall key, In key batch ->
       exists pages obj,
         s3_pages env = Some pages /\ In obj (concat pages) /\ Key obj = key
         /\ contains MARKER key = true
         /\ (LastModified obj < s3_now env - days_to_keep * 86400000000)%Z.
Proof.
  intros H. apply cleanup_sent in H as (pages & cutoff & Hp & Hc & Hb). split.
  - pose proof (batches_sizes (objects_to_delete cutoff pages)) as Hs.
    rewrite Forall_forall in Hs. now apply Hs, list_elem_of_In.
  - intros key Hk.
    assert (Hin : In key (objects_to_delete cutoff pages)).
    { rewrite <- (batches_concat (objects_to_delete cutoff pages)).
      apply in_concat. eauto. }
    unfold objects_to_delete in Hin.
    apply in_map_iff in Hin as (obj & <- & Ho).
    apply filter_In in Ho as [Ho [Hm Hl]%andb_prop].
    exists pages, obj. repeat split; try assumption.
    unfold minus_days in Hc.
    destruct (Z.abs days_to_keep >? 999999999)%Z; [discriminate|].
    destruct (_ || _); [discriminate|]. injection Hc as <-.
    unfold MICROSECONDS_PER_DAY in Hl. lia.
Qed.

Lemma s3_cleanup_deletes_only_old_backups_witness :
  snd (cleanup_old_s3_backups true true (lit "bucket") bucket_listing 30)
  = [[lit "mcp-backups/AGENTS_backup_old.md"]]
  /\ (1 <= length [lit "mcp-backups/AGENTS_backup_old.md"] <= 1000)%nat.
Proof.
  split; [reflexivity|].
  apply (s3_cleanup_deletes_only_old_backups true true (lit "bucket")
           bucket_listing 30 [lit "mcp-backups/AGENTS_backup_old.md"]).
  vm_compute. left. reflexivity.
Defined.

(** X17: When no request raises, every key collected from the listing is sent
    exactly once, in the order of the listing, and the number returned is
    the sum of the deletions that the responses report. *)
Theorem s3_cleanup_requests_every_old_backup (S3_BUCKET : str) (env : s3_env)
    (days_to_keep : Z) (pages : list (list s3_object)) (cutoff_date : Z) :
  S3_BUCKET <> [] ->
  s3_pages env = Some pages ->
  minus_days (s3_now env) days_to_keep = Some cutoff_date ->
  (forall i, is_Some (s3_deleted env i)) ->
  concat (snd (cleanup_old_s3_backups true true S3_BUCKET env days_to_keep))
  = objects_to_delete cutoff_date pages
  /\ fst (cleanup_old_s3_backups true true S3_BUCKET env days_to_keep)
     = fold_right Z.add 0%Z
         (map (fun i => Z.of_nat (default 0%nat (s3_deleted env i)))
              (seq 0 (length (snd (cleanup_old_s3_backups true true S3_BUCKET
                                     env days_to_keep))))).
Proof.
  intros Hb Hp Hc Hall. unfold cleanup_old_s3_backups. rewrite Hp, Hc.
  destruct S3_BUCKET as [|c b]; [congruence|]. cbn [negb orb is_empty].
  destruct (objects_to_delete cutoff_date pages) as [|k ks] eqn:E; [now split|].
  rewrite delete_batches_all by (intros j _; apply Hall). cbn [fst snd].
  split; [apply batches_concat|]. lia.
Qed.

Lemma s3_cleanup_requests_every_old_backup_witness :
  concat (snd (cleanup_old_s3_backups true true (lit "bucket") bucket_listing 30))
  = [lit "mcp-backups/AGENTS_backup_old.md"].
Proof.
  refine (proj1 (s3_cleanup_requests_every_old_backup (lit "bucket")
                   bucket_listing 30 _ (970 * MICROSECONDS_PER_DAY) _ eq_refl _ _)).
  - discriminate.
  - reflexivity.
  - intros i. now exists 1%nat.
Defined.

Lemma delete_batches_raises (env : s3_env) (todo : list (list str)) (i k : nat) (n : Z) :
  (k < length todo)%nat ->
  s3_deleted env (i + k) = None ->
  (forall j, (j < k)%nat -> is_Some (s3_deleted env (i + j))) ->
  delete_batches env i todo n = (0%Z, firstn (S k) todo).
Proof.
  revert i k n. induction todo as [|b rest IH]; intros i k n Hk Hnone Hsome;
    cbn [length] in Hk; [lia|]. cbn [delete_batches].
  destruct k as [|k].
  - rewrite Nat.add_0_r in Hnone. now rewrite Hnone.
  - destruct (Hsome 0%nat ltac:(lia)) as [m Hm]. rewrite Nat.add_0_r in Hm.
    rewrite Hm. rewrite (IH (S i) k).
    + reflexivity.
    + lia.
    + now replace (S i + k)%nat with (i + S k)%nat by lia.
    + intros j Hj. replace (S i + j)%nat with (i + S j)%nat by lia.
      apply Hsome. lia.
Qed.

(** X18: When a delete request raises, the function returns 0, whatever the
    requests before it have deleted; the batches behind it are not sent. *)
Theorem s3_cleanup_returns_zero_after_failure (S3_BUCKET : str) (env : s3_env)
    (days_to_keep : Z) (pages : list (list s3_object)) (cutoff_date : Z) (k : nat) :
  S3_BUCKET <> [] ->
  s3_pages env = Some pages ->
  minus_days (s3_now env) days_to_keep = Some cutoff_date ->
  (k < length (batches (objects_to_delete cutoff_date pages)))%nat ->
  s3_deleted env k = None ->
  (forall j, (j < k)%nat -> is_Some (s3_deleted env j)) ->
  cleanup_old_s3_backups true true S3_BUCKET env days_to_keep
  = (0%Z, firstn (S k) (batches (objects_to_delete cutoff_date pages))).
Proof.
  intros Hb Hp Hc Hk Hnone Hsome. unfold cleanup_old_s3_backups. rewrite Hp, Hc.
  destruct S3_BUCKET as [|c b]; [congruence|]. cbn [negb orb is_empty].
  destruct (objects_to_delete cutoff_date pages) as [|x xs] eqn:E.
  - cbn in Hk. lia.
  - now apply delete_batches_raises.
Qed.

Lemma s3_cleanup_returns_zero_after_failure_witness :
  fst (cleanup_old_s3_backups true true (lit "bucket") second_request_fails 30)
  = 0%Z
  /\ map (@length str)
         (snd (cleanup_old_s3_backups true true (lit "bucket")
                 second_request_fails 30))
     = [1000; 500]%nat.
Proof.
  rewrite (s3_cleanup_returns_zero_after_failure (lit "bucket")
             second_request_fails 30 _ (970 * MICROSECONDS_PER_DAY) 1 ltac:(discriminate) eq_refl eq_refl).
  - split; [reflexivity|]. vm_compute. reflexivity.
  - vm_compute. lia.
  - reflexivity.
  - intros j Hj. assert (j = 0)%nat as -> by lia. now eexists.
Defined.

(** ** [backup.py]: the backup job *)

Lemma log_stats_gdrive (days : Z) (backups : list drive_file) :
  log_stats (get_backup_stats days backups)
  = match backups with
    | [] => Some (KeyError "total_size_mb")
    | _ :: _ => None
    end.
Proof.
  destruct backups as [|b bs]; [reflexivity|].
  unfold get_backup_stats.
  destruct (last (b :: bs)) as [oldest|] eqn:E; [reflexivity|].
  now apply last_None in E.
Qed.

Lemma log_stats_s3 (bucket prefix : str) (backups : list s3_backup) :
  log_stats (get_s3_backup_stats bucket prefix backups)
  = match backups with
    | [] => Some (KeyError "total_size_mb")
    | _ :: _ => None
    end.
Proof.
  destruct backups as [|b bs]; [reflexivity|].
  unfold get_s3_backup_stats.
  destruct (last (b :: bs)) as [oldest|] eqn:E; [reflexivity|].
  now apply last_None in E.
Qed.

Lemma gdrive_block_cases (cfg : backup_config) (env : job_env) (include_gdrive : bool) :
  gdrive_breaks cfg env include_gdrive
  /\ gdrive_block cfg env include_gdrive
     = (inl (KeyError "total_size_mb"),
        [CallBackupToGdrive; CallCleanupOldBackups; CallGetBackupStats])
  \/ ~ gdrive_breaks cfg env include_gdrive
     /\ exists ok calls, gdrive_block cfg env include_gdrive = (inr ok, calls)
                         /\ ~ In CallBackupToEmail calls.
Proof.
  unfold gdrive_block, gdrive_breaks. rewrite log_stats_gdrive.
  destruct include_gdrive; cbn [andb].
  2:{ right. split; [intros [[=] _]|]. exists false, []. now split. }
  destruct (PARENT_FOLDER_ID cfg) as [|c f]; cbn [is_empty negb].
  { right. split; [intros (_ & H & _); congruence|]. exists false, []. now split. }
  destruct (gdrive_file_id env) as [gid|].
  2:{ right. split; [intros (_ & _ & [x [=]] & _)|].
      exists false, [CallBackupToGdrive]. split; [reflexivity|].
      intros [[=]|[]]. }
  destruct (gdrive_backups env) as [|g gs].
  - left. split; [|reflexivity]. repeat split; eauto; discriminate.
  - right. split; [intros (_ & _ & _ & [=])|].
    exists true, [CallBackupToGdrive; CallCleanupOldBackups; CallGetBackupStats].
    split; [reflexivity|]. cbn. intuition discriminate.
Qed.

Lemma s3_block_cases (cfg : backup_config) (env : job_env) (include_s3 : bool) :
  s3_breaks cfg env include_s3
  /\ s3_block cfg env include_s3
     = (inl (KeyError "total_size_mb"),
        [CallBackupToS3; CallCleanupOldS3Backups; CallGetS3BackupStats])
  \/ ~ s3_breaks cfg env include_s3
     /\ exists ok calls, s3_block cfg env include_s3 = (inr ok, calls)
                         /\ ~ In CallBackupToEmail calls.
Proof.
  unfold s3_block, s3_breaks. rewrite log_stats_s3.
  destruct include_s3; cbn [andb].
  2:{ right. split; [intros [[=] _]|]. exists false, []. now split. }
  destruct (S3_ENABLED cfg).
  2:{ right. split; [intros (_ & [=] & _)|]. exists false, []. now split. }
  destruct (s3_backup_key env) as [key|].
  2:{ right. split; [intros (_ & _ & [x [=]] & _)|].
      exists false, [CallBackupToS3]. split; [reflexivity|].
      intros [[=]|[]]. }
  destruct (s3_backups env) as [|b bs].
  - left. split; [|reflexivity]. repeat split; eauto.
  - right. split; [intros (_ & _ & _ & [=])|].
    exists true, [CallBackupToS3; CallCleanupOldS3Backups; CallGetS3BackupStats].
    split; [reflexivity|]. cbn. intuition discriminate.
Qed.

(** X19: The statistics of an empty list of backups have no ["total_size_mb"],
    which the job reads after an upload that went well. So the job ends in a
    [KeyError] exactly when the Google Drive upload is followed by an empty
    list of backups, or the S3 upload is; after the first of these, neither
    the S3 backup nor the mail is tried, after the second the mail is not. *)
Theorem backup_job_key_error (cfg : backup_config) (env : job_env)
    (include_gdrive include_s3 include_email : bool) :
  let result := run_backup_job cfg env include_gdrive include_s3 include_email in
  ((exists e, fst result = inl e)
   <-> gdrive_breaks cfg env include_gdrive \/ s3_breaks cfg env include_s3)
  /\ (gdrive_breaks cfg env include_gdrive ->
      result = (inl (KeyError "total_size_mb"),
                [CallBackupToGdrive; CallCleanupOldBackups; CallGetBackupStats]))
  /\ (s3_breaks cfg env include_s3 ->
      fst result = inl (KeyError "total_size_mb")
      /\ ~ In CallBackupToEmail (snd result)).
Proof.
  unfold run_backup_job.
  destruct (gdrive_block_cases cfg env include_gdrive)
    as [[Hg ->]|(Hg & okg & cg & -> & Hcg)].
  - cbn [fst snd]. split; [split; eauto|]. split; [reflexivity|].
    intros _. split; [reflexivity|]. cbn. intuition discriminate.
  - destruct (s3_block_cases cfg env include_s3)
      as [[Hs ->]|(Hs & oks & cs & -> & Hcs)].
    + cbn [fst snd]. split; [split; eauto|]. split; [contradiction|].
      intros _. split; [reflexivity|]. rewrite in_app_iff.
      cbn. intuition discriminate.
    + split; [|split; contradiction].
      destruct (include_email && EMAIL_ENABLED cfg); cbn [fst];
        split; try (intros [e [=]]); intros [?|?]; contradiction.
Qed.

Lemma backup_job_key_error_witness :
  run_backup_job
    {| PARENT_FOLDER_ID := lit "folder"; BACKUP_RETENTION_DAYS := 30;
       S3_ENABLED := true; S3_BUCKET := lit "bucket";
       S3_PREFIX := lit "mcp-backups/"; EMAIL_ENABLED := true |}
    {| gdrive_file_id := Some (lit "1aB"); gdrive_backups := [];
       s3_backup_key := Some (lit "mcp-backups/AGENTS_backup_x.md");
       s3_backups := []; email_sent := true |}
    true true true
  = (inl (KeyError "total_size_mb"),
     [CallBackupToGdrive; CallCleanupOldBackups; CallGetBackupStats]).
Proof.
  apply (proj1 (proj2 (backup_job_key_error _ _ true true true))).
  repeat split; [discriminate|eauto].
Defined.

(** ** One client among others *)

Lemma isolation_general (cfg : config) (client : str) (calls : list (str * Q))
    (st1 st2 : store) :
  st1 !! client = st2 !! client ->
  admitted_times cfg client calls st1
  = admitted_times cfg client (own_calls client calls) st2
  /\ snd (run_calls cfg calls st1) !! client
     = snd (run_calls cfg (own_calls client calls) st2) !! client.
Proof.
  revert st1 st2. induction calls as [|[c now] rest IH]; intros st1 st2 Hst.
  - now split.
  - cbn [own_calls List.filter fst]. fold (own_calls client rest).
    cbn [admitted_times]. rewrite run_calls_cons.
    rewrite (check_rate_limit_step cfg now c st1). cbn [fst snd].
    case_bool_decide as Hc.
    + subst c. cbn [admitted_times]. rewrite run_calls_cons.
      rewrite (check_rate_limit_step cfg now client st2). cbn [fst snd].
      rewrite <- Hst.
      destruct (IH (<[client:=snd (window_step cfg now (default [] (st1 !! client)))]> st1)
                   (<[client:=snd (window_step cfg now (default [] (st1 !! client)))]> st2))
        as [-> ->]; [now rewrite !lookup_insert_eq|].
      rewrite !(bool_decide_eq_true_2 (client = client)) by reflexivity.
      now split.
    + rewrite andb_false_r. cbn [app]. apply IH.
      now rewrite lookup_insert_ne.
Qed.

(** X5: The calls of other clients change nothing for a client: its admitted
    calls, and the verdict of its next call, are those of the run in which
    it is alone. *)
Theorem clients_are_isolated (cfg : config) (client : str) (now : Q)
    (calls : list (str * Q)) :
  admitted_times cfg client calls ∅
  = admitted_times cfg client (own_calls client calls) ∅
  /\ fst (check_rate_limit cfg now client (snd (run_calls cfg calls ∅)))
     = fst (check_rate_limit cfg now client
              (snd (run_calls cfg (own_calls client calls) ∅))).
Proof.
  destruct (isolation_general cfg client calls ∅ ∅ eq_refl) as [Ha Hl].
  split; [exact Ha|]. rewrite !check_rate_limit_step. cbn [fst]. now rewrite Hl.
Qed.

(** ** What [GET /api/memory] reports *)

(** X13: For a file that holds a text and a request during which nothing raises,
    the answer carries the text with its line ends translated and the size of
    the file in bytes, which is never below the number of characters of the
    content. *)
Theorem read_response_sizes (s text : str) (data : bytes) (d : datetime) :
  encode s = Some data ->
  let response :=
    api_read_memory {| read_fault := None; decode_error := text |}
      {| st_mtime := d; stats_fault := None; stats_decode_error := text |}
      (Some data) in
  read_content response = universal_newlines s
  /\ dict_get "size_bytes" (read_stats response) = Some (PyInt (len data))
  /\ (len (read_content response) <= len data)%Z.
Proof.
  intros Es. unfold api_read_memory, read_memory_file, get_file_stats.
  cbn [read_fault stats_fault read_content read_stats].
  rewrite (decode_encode _ _ Es). cbn [dict_get String.eqb]. repeat split.
  pose proof (universal_newlines_length s). pose proof (encode_length s data Es).
  unfold len, byte, codepoint in *. lia.
Qed.

Lemma read_response_sizes_witness :
  (len (read_content
          (api_read_memory {| read_fault := None; decode_error := [] |}
             {| st_mtime := noon; stats_fault := None; stats_decode_error := [] |}
             (Some [97; 13; 10; 195; 169]%N))) <= 5)%Z.
Proof.
  apply (proj2 (proj2 (read_response_sizes [97; 13; 10; 233]%N [] [97; 13; 10; 195; 169]%N
                  noon eq_refl))).
Defined.

(** ** The line count over a run *)

Lemma rendered_single_line (call : append_env * str) :
  single_line (strip (snd call)) = true ->
  exists t, rendered call = [LF] ++ t /\ t <> [] /\ has_LF t = false
            /\ has_CR (rendered call) = false.
Proof.
  unfold single_line. intros [Hc Hl]%andb_prop.
  apply negb_true_iff in Hc. apply negb_true_iff in Hl.
  destruct (printable_no_breaks _ (isoformat_printable (now (fst call)))) as [Hci Hli].
  exists (lit "- [" ++ isoformat (now (fst call)) ++ lit "] " ++ strip (snd call)).
  unfold rendered, formatted_rule. repeat split.
  - discriminate.
  - now rewrite !has_LF_app, Hli, Hl.
  - now rewrite !has_CR_app, Hci, Hc.
Qed.

Lemma count_lines_entries (s : str) (calls : list (append_env * str)) :
  forallb (fun call => single_line (strip (snd call))) calls = true ->
  calls <> [] ->
  count_lines (s ++ concat (map rendered calls))
  = (count_lines s + length calls + (if open_line s then 0 else 1))%nat
  /\ has_CR (concat (map rendered calls)) = false.
Proof.
  revert s. induction calls as [|call rest IH]; intros s Hall Hne; [congruence|].
  cbn [forallb] in Hall. apply andb_prop in Hall as [Hcall Hrest].
  destruct (rendered_single_line call Hcall) as (t & Et & Htne & Htl & Htc).
  cbn [map concat length]. destruct rest as [|call' rest'].
  - cbn [map concat]. rewrite app_nil_r, Et. rewrite Et in Htc.
    split; [|exact Htc]. rewrite (count_lines_extend s t Htne Htl).
    cbn [length]. destruct (open_line s); lia.
  - destruct (IH (s ++ rendered call) Hrest ltac:(discriminate)) as [IHc IHr].
    rewrite app_assoc, IHc. rewrite has_CR_app, Htc, IHr. split; [|reflexivity].
    rewrite Et at 1 2. rewrite (count_lines_extend s t Htne Htl).
    rewrite app_assoc, (open_line_app (s ++ [LF]) t Htne).
    rewrite (open_line_no_LF t Htne Htl). cbn [length].
    destruct (open_line s); lia.
Qed.

(** X20: After one or more accepted calls whose trimmed bodies have no line
    break, on a file of text without carriage return, the statistics count
    the lines that were there and one line for each entry, and one more when
    the file did not end inside a line: from the three lines of the
    initialized file, [n] entries give [n + 4] lines. *)
Theorem line_count_after_appends (cfg : config) (s0 : str) (data0 : bytes)
    (calls : list (append_env * str)) (senv : stats_env) :
  encode s0 = Some data0 -> has_CR s0 = false ->
  stats_fault senv = None ->
  calls <> [] ->
  forallb (fun call => single_line (strip (snd call))) calls = true ->
  Forall (eq SUCCESS) (fst (run_appends cfg calls (Some data0))) ->
  dict_get "line_count"
    (get_file_stats senv (snd (run_appends cfg calls (Some data0))))
  = Some (PyInt (Z.of_nat (count_lines s0 + length calls
                           + (if open_line s0 then 0 else 1)))).
Proof.
  intros E0 Hc0 Hf Hne Hall Hs.
  destruct (run_appends_success cfg calls data0 Hs) as (tail & Et & ->).
  destruct (count_lines_entries s0 calls Hall Hne) as [Hcount Hcr].
  unfold get_file_stats. rewrite Hf.
  rewrite (decode_encode _ _ (encode_app_Some _ _ _ _ E0 Et)).
  rewrite universal_newlines_no_CR
    by (apply not_has_CR; now rewrite has_CR_app, Hc0, Hcr).
  cbn [dict_get String.eqb]. now rewrite Hcount.
Qed.

Lemma line_count_after_appends_witness :
  dict_get "line_count"
    (get_file_stats {| st_mtime := noon; stats_fault := None;
                       stats_decode_error := [] |}
       (snd (run_appends default_config two_calls
               (Some (initial_content noon)))))
  = Some (PyInt 6).
Proof.
  apply (line_count_after_appends default_config (initial_content noon)
           (initial_content noon) two_calls).
  - reflexivity.
  - reflexivity.
  - reflexivity.
  - discriminate.
  - reflexivity.
  - vm_compute. repeat constructor.
Defined.
